(** * m-series-metrics: the metrics bridge, its command line and its
      sensor helper

    A shallow embedding of [bun.ts] (the metrics bridge) and of the
    ECMAScript built-ins it calls, of the argument loop of [bin.ts] and
    of the collection loop of [M4Temp.swift], followed by the properties
    of the parsers, the probes, the snapshot, the request handler, the
    command line and the helper.

    Conventions.
    - A text is a [string]: every [ascii] stands for the UTF-16 code unit
      of the same number, so the texts covered are those whose code units
      lie in U+0000..U+00FF.  Strings that may leave that range (results
      of [toUpperCase], decoded JSON strings) are lists of code units
      ([ustring]).
    - A Number is an IEEE-754 binary64 value, [spec_float] with
      [prec = 53] and [emax = 1024]; [null] is [None].
    - What a process did (exit status, captured streams) is an input;
      spawning, the kill timer and the pipes belong to the runtime.
    - A response is its status, the headers the handler sets and what
      its body is made from; serialising the body, parsing the URL and
      whatever headers the runtime adds belong to the runtime.  So do
      the help text of the command line and the HID event system the
      helper queries: the services it returns are an input. *)

From Stdlib Require Import Bool List String Ascii NArith ZArith Lia.
From Stdlib Require Import Floats.SpecFloat.
Import ListNotations.

Local Open Scope string_scope.

(* ===================================================================== *)
(** ** ECMAScript built-ins                                               *)
(* ===================================================================== *)

Module JS.

(** *** Code units *)

Definition ustring := list N.

Definition code (c : ascii) : N := N_of_ascii c.

Definition units (s : string) : ustring := map code (list_ascii_of_string s).

Definition between (lo hi u : N) : bool := ((lo <=? u) && (u <=? hi))%N.

(** WhiteSpace and LineTerminator code points (the set behind [\s] and
    behind the trimming of StringToNumber). *)
Definition is_white_unit (u : N) : bool :=
  (between 9 13 u || (u =? 32) || (u =? 160) || (u =? 5760)
   || between 8192 8202 u || (u =? 8232) || (u =? 8233) || (u =? 8239)
   || (u =? 8287) || (u =? 12288) || (u =? 65279))%N.

Definition is_digit_unit (u : N) : bool := between 48 57 u.

Definition is_space (c : ascii) : bool := is_white_unit (code c).

(** [\w] without the unicode flag: [A-Za-z0-9_]. *)
Definition is_word_char (c : ascii) : bool :=
  let u := code c in
  (between 65 90 u || between 97 122 u || between 48 57 u || (u =? 95))%N.

(** Letters of U+0000..U+00FF that have a lower-case (resp. upper-case)
    partner inside the same range: A-Z, and U+00C0..U+00DE except the
    multiplication sign; a-z and U+00E0..U+00FE except the division sign. *)
Definition has_lower (u : N) : bool :=
  (between 65 90 u || (between 192 222 u && negb (u =? 215)))%N.

Definition has_upper (u : N) : bool :=
  (between 97 122 u || (between 224 254 u && negb (u =? 247)))%N.

Definition lower_char (c : ascii) : ascii :=
  if has_lower (code c) then ascii_of_N (code c + 32) else c.

(** [String.prototype.toLowerCase]: no code unit of the range has a
    context-dependent or multi-unit lower-case form. *)
Fixpoint toLowerCase (s : string) : string :=
  match s with
  | EmptyString => EmptyString
  | String c s' => String (lower_char c) (toLowerCase s')
  end.

(** Upper-case form of one code unit: sharp s becomes "SS", y-diaeresis
    and the micro sign leave the range. *)
Definition upper_unit (u : N) : ustring :=
  if has_upper u then [(u - 32)%N]
  else if (u =? 223)%N then [83; 83]%N
  else if (u =? 255)%N then [376]%N
  else if (u =? 181)%N then [924]%N
  else [u].

Definition toUpperCase (s : string) : ustring :=
  flat_map upper_unit (units s).

Definition ustring_eqb (a b : ustring) : bool :=
  if list_eq_dec N.eq_dec a b then true else false.

(** [hay.includes(needle)] *)
Fixpoint includes (hay needle : string) : bool :=
  if prefix needle hay then true
  else match hay with
       | EmptyString => false
       | String _ hay' => includes hay' needle
       end.

(** The first [n] code units of a text. *)
Definition take (n : nat) (s : string) : string := substring 0 n s.

(** *** Numbers *)

Definition number := spec_float.

Definition prec : Z := 53.
Definition emax : Z := 1024.

Definition NaN : number := S754_nan.
Definition pos_zero : number := S754_zero false.
Definition Infinity : number := S754_infinity false.
Definition neg_Infinity : number := S754_infinity true.

(** An integer as an unrounded significand with exponent 0. *)
Definition raw_integer (neg : bool) (n : Z) : number :=
  match n with
  | Z0 => S754_zero neg
  | Zpos p => S754_finite neg p 0
  | Zneg _ => S754_nan
  end.

(** The Number value for [(-1)^neg * num / den], [0 <= num], [0 < den]:
    round to nearest, ties to even, overflow to infinity. *)
Definition round_ratio (neg : bool) (num den : Z) : number :=
  SFdiv prec emax (raw_integer neg num) (raw_integer false den).

(** The Number value of an integer literal of the source. *)
Definition num (z : Z) : number := round_ratio (z <? 0)%Z (Z.abs z) 1.

Definition isFinite (x : number) : bool :=
  match x with
  | S754_zero _ | S754_finite _ _ _ => true
  | _ => false
  end.

Definition div (x y : number) : number := SFdiv prec emax x y.

(** [x <= y], [x >= y], [x < y], [x > y]: false as soon as one side is NaN. *)
Definition le (x y : number) : bool := SFleb x y.
Definition ge (x y : number) : bool := SFleb y x.
Definition lt (x y : number) : bool := SFltb x y.
Definition gt (x y : number) : bool := SFltb y x.

(** [Math.max]: NaN wins, [+0] is above [-0], no argument gives
    [-Infinity]. *)
Definition max_step (highest x : number) : number :=
  match highest, x with
  | S754_nan, _ => S754_nan
  | _, S754_nan => S754_nan
  | S754_zero true, S754_zero false => x
  | _, _ => if gt x highest then x else highest
  end.

Definition Math_max (l : list number) : number :=
  fold_left max_step l neg_Infinity.

(** *** StringToNumber *)

Fixpoint span {A} (p : A -> bool) (l : list A) : list A * list A :=
  match l with
  | [] => ([], [])
  | x :: l' => if p x then let (a, b) := span p l' in (x :: a, b) else ([], l)
  end.

Fixpoint drop_while {A} (p : A -> bool) (l : list A) : list A :=
  match l with
  | [] => []
  | x :: l' => if p x then drop_while p l' else l
  end.

Definition trim (l : ustring) : ustring :=
  rev (drop_while is_white_unit (rev (drop_while is_white_unit l))).

(** Value of a digit in a base up to 16, when the code unit is one. *)
Definition digit_of (base : Z) (u : N) : option Z :=
  let d :=
    if between 48 57 u then Some (Z.of_N u - 48)%Z
    else if between 97 102 u then Some (Z.of_N u - 87)%Z
    else if between 65 70 u then Some (Z.of_N u - 55)%Z
    else None in
  match d with
  | Some v => if (v <? base)%Z then Some v else None
  | None => None
  end.

(** Value of a non-empty run of digits; [None] on a foreign code unit. *)
Fixpoint digits_from (base acc : Z) (l : ustring) : option Z :=
  match l with
  | [] => Some acc
  | u :: l' =>
      match digit_of base u with
      | Some d => digits_from base (base * acc + d)%Z l'
      | None => None
      end
  end.

Definition digits_value (base : Z) (l : ustring) : option Z :=
  match l with
  | [] => None
  | _ => digits_from base 0 l
  end.

(** [sig * 10^e10], rounded once. *)
Definition scale10 (neg : bool) (sig e10 : Z) : number :=
  if (0 <=? e10)%Z then round_ratio neg (sig * 10 ^ e10) 1
  else round_ratio neg sig (10 ^ (- e10)).

(** ExponentPart, or nothing: [e] or [E], an optional sign, digits. *)
Definition exponent_part (l : ustring) : option Z :=
  match l with
  | [] => Some 0%Z
  | u :: l' =>
      if (u =? 101)%N || (u =? 69)%N then
        match l' with
        | 43%N :: ds => digits_value 10 ds
        | 45%N :: ds => option_map Z.opp (digits_value 10 ds)
        | ds => digits_value 10 ds
        end
      else None
  end.

(** Digits, a fraction and an exponent, as split by the caller. *)
Definition decimal_value (neg : bool) (ip fp ex : ustring) : number :=
  match (ip ++ fp)%list with
  | [] => NaN
  | ds =>
      match digits_from 10 0 ds, exponent_part ex with
      | Some sig, Some e => scale10 neg sig (e - Z.of_nat (List.length fp))
      | _, _ => NaN
      end
  end.

(** StrUnsignedDecimalLiteral. *)
Definition unsigned_decimal (neg : bool) (l : ustring) : number :=
  if ustring_eqb l (units "Infinity") then S754_infinity neg
  else
    let (ip, r1) := span is_digit_unit l in
    match r1 with
    | 46%N :: r2 => let (fp, r3) := span is_digit_unit r2 in
                    decimal_value neg ip fp r3
    | _ => match ip with
           | [] => NaN
           | _ => decimal_value neg ip [] r1
           end
    end.

Definition integer_literal (base : Z) (ds : ustring) : number :=
  match digits_value base ds with
  | Some n => round_ratio false n 1
  | None => NaN
  end.

(** StringToNumber: trim, then the empty text, a binary, octal or hex
    integer, or a signed decimal literal. *)
Definition StringToNumber (l : ustring) : number :=
  match trim l with
  | [] => pos_zero
  | 43%N :: r => unsigned_decimal false r
  | 45%N :: r => unsigned_decimal true r
  | 48%N :: u :: r =>
      if (u =? 120)%N || (u =? 88)%N then integer_literal 16 r
      else if (u =? 111)%N || (u =? 79)%N then integer_literal 8 r
      else if (u =? 98)%N || (u =? 66)%N then integer_literal 2 r
      else unsigned_decimal false (trim l)
  | r => unsigned_decimal false r
  end.

(** [Number(v)] where [v] is a text or [undefined]. *)
Definition Number (v : option string) : number :=
  match v with
  | None => NaN
  | Some s => StringToNumber (units s)
  end.

(** *** Regular expressions

    The fragment of the pattern language that the source uses: literal
    text, one character of a class, a greedy [*] or [+] over a class,
    capture groups, [\b] and concatenation.  Matching follows the
    continuation semantics of the language definition: a matcher receives
    the state and the continuation for the rest of the pattern, and a
    greedy quantifier tries the longer run first. *)

Inductive citem :=
| CRange (lo hi : ascii)      (* [lo-hi] *)
| CChar (c : ascii)           (* a single member *)
| CWhite.                     (* \s *)

Definition cclass := list citem.

Inductive regex :=
| Lit (p : string)
| Set1 (c : cclass)
| Star (c : cclass)
| Plus (c : cclass)
| Group (n : nat) (r : regex)
| WordBoundary
| Cat (r1 r2 : regex).

Record RegExp := { pattern : regex; ignoreCase : bool }.

(** Canonicalize of the [i] flag without the unicode flag: the upper-case
    form when it is a single code unit, except that a code unit from
    U+0080 on never maps below U+0080. *)
Definition canonicalize (u : N) : N :=
  match upper_unit u with
  | [v] => if (128 <=? u)%N && (v <? 128)%N then u else v
  | _ => u
  end.

Definition char_matches (ci : bool) (a ch : ascii) : bool :=
  if ci then (canonicalize (code a) =? canonicalize (code ch))%N
  else (code a =? code ch)%N.

Definition item_mem (ch : ascii) (i : citem) : bool :=
  match i with
  | CRange lo hi => between (code lo) (code hi) (code ch)
  | CChar c => (code c =? code ch)%N
  | CWhite => is_space ch
  end.

Definition class_mem (c : cclass) (ch : ascii) : bool := existsb (item_mem ch) c.

(** The code units of the range whose canonical form is that of [ch]:
    [ch] and its case partner. *)
Definition case_variants (ch : ascii) : list ascii :=
  let u := code ch in
  [ch; (if has_lower u then ascii_of_N (u + 32)
        else if has_upper u then ascii_of_N (u - 32) else ch)].

(** Under [i] a class matches [ch] when one of its members has the
    canonical form of [ch]. *)
Definition class_matches (ci : bool) (c : cclass) (ch : ascii) : bool :=
  if ci then existsb (class_mem c) (case_variants ch) else class_mem c ch.

Record mstate := {
  prev : option ascii;            (* the code unit before the position *)
  rest : string;                  (* the input from the position on *)
  caps : list (nat * string)      (* captures, the latest first *)
}.

Definition continuation := mstate -> option mstate.

Definition advance (st : mstate) (ch : ascii) (s' : string) : mstate :=
  {| prev := Some ch; rest := s'; caps := caps st |}.

Fixpoint lit_match (ci : bool) (p : string) (st : mstate) : option mstate :=
  match p with
  | EmptyString => Some st
  | String a p' =>
      match rest st with
      | String ch s' =>
          if char_matches ci a ch then lit_match ci p' (advance st ch s') else None
      | EmptyString => None
      end
  end.

(** Greedy repetition of a class: the longer run first, then the
    continuation at the present position. *)
Fixpoint star_match (ci : bool) (c : cclass) (k : continuation)
    (cp : list (nat * string)) (pv : option ascii) (s : string) : option mstate :=
  let here := {| prev := pv; rest := s; caps := cp |} in
  match s with
  | String ch s' =>
      if class_matches ci c ch then
        match star_match ci c k cp (Some ch) s' with
        | Some r => Some r
        | None => k here
        end
      else k here
  | EmptyString => k here
  end.

Definition at_word_boundary (st : mstate) : bool :=
  let a := match prev st with Some c => is_word_char c | None => false end in
  let b := match rest st with String c _ => is_word_char c | EmptyString => false end in
  xorb a b.

(** The text between the position of [st0] and the later one of [st1]. *)
Definition consumed (st0 st1 : mstate) : string :=
  take (length (rest st0) - length (rest st1)) (rest st0).

Definition set_cap (n : nat) (st0 st1 : mstate) : mstate :=
  {| prev := prev st1; rest := rest st1;
     caps := (n, consumed st0 st1) :: caps st1 |}.

Fixpoint rmatch (ci : bool) (r : regex) (k : continuation) (st : mstate)
    : option mstate :=
  match r with
  | Lit p =>
      match lit_match ci p st with
      | Some st' => k st'
      | None => None
      end
  | Set1 c =>
      match rest st with
      | String ch s' => if class_matches ci c ch then k (advance st ch s') else None
      | EmptyString => None
      end
  | Star c => star_match ci c k (caps st) (prev st) (rest st)
  | Plus c =>
      match rest st with
      | String ch s' =>
          if class_matches ci c ch then star_match ci c k (caps st) (Some ch) s'
          else None
      | EmptyString => None
      end
  | Group n r' => rmatch ci r' (fun st' => k (set_cap n st st')) st
  | WordBoundary => if at_word_boundary st then k st else None
  | Cat r1 r2 => rmatch ci r1 (rmatch ci r2 k) st
  end.

(** The array of a successful match: entry 0 is the matched text, entry
    [n] the text of group [n]; a group that took no part is [undefined]. *)
Definition match_array := list (nat * string).

Fixpoint cap (m : match_array) (n : nat) : option string :=
  match m with
  | [] => None
  | (i, w) :: m' => if Nat.eqb i n then Some w else cap m' n
  end.

(** The leftmost start from which the pattern matches. *)
Fixpoint search (re : RegExp) (pv : option ascii) (s : string) : option match_array :=
  let st0 := {| prev := pv; rest := s; caps := [] |} in
  match rmatch (ignoreCase re) (pattern re) Some st0 with
  | Some st => Some ((0, consumed st0 st) :: caps st)
  | None =>
      match s with
      | EmptyString => None
      | String ch s' => search re (Some ch) s'
      end
  end.

(** [hay.match(re)] for a pattern without the global flag; [None] is the
    [null] of a failed match. *)
Definition String_match (hay : string) (re : RegExp) : option match_array :=
  search re None hay.

Declare Scope regex_scope.
Delimit Scope regex_scope with re.
Infix "+>" := Cat (at level 60, right associativity) : regex_scope.

(** *** JSON.parse

    The JSON grammar, by recursive descent.  Nesting is bounded by the
    length of the text, which is the fuel the entry point supplies. *)

#[local] Unset Elimination Schemes.
Inductive json :=
| JNull
| JBool (b : bool)
| JNum (x : number)
| JStr (s : ustring)
| JArr (l : list json)
| JObj (m : list (ustring * json)).
#[local] Set Elimination Schemes.

Inductive presult (A : Type) :=
| POk (a : A) (r : string)
| PFail
| PFuel.
Arguments POk {A} a r.
Arguments PFail {A}.
Arguments PFuel {A}.

Definition is_json_ws (c : ascii) : bool :=
  let u := code c in ((u =? 9) || (u =? 10) || (u =? 13) || (u =? 32))%N.

Fixpoint skip_ws (s : string) : string :=
  match s with
  | String c s' => if is_json_ws c then skip_ws s' else s
  | EmptyString => s
  end.

Fixpoint span_digits (s : string) : ustring * string :=
  match s with
  | String c s' =>
      if is_digit_unit (code c) then
        let (d, r) := span_digits s' in (code c :: d, r)
      else ([], s)
  | EmptyString => ([], s)
  end.

Definition hex4 (a b c d : ascii) : option N :=
  match digit_of 16 (code a), digit_of 16 (code b),
        digit_of 16 (code c), digit_of 16 (code d) with
  | Some x, Some y, Some z, Some w => Some (Z.to_N (((x * 16 + y) * 16 + z) * 16 + w))
  | _, _, _, _ => None
  end.

(** The characters of a string after its opening quote, up to the
    closing one. *)
Fixpoint json_string (s : string) (acc : ustring) : option (ustring * string) :=
  match s with
  | EmptyString => None
  | String c s1 =>
      let u := code c in
      if (u =? 34)%N then Some (rev acc, s1)
      else if (u =? 92)%N then
        match s1 with
        | String e s2 =>
            match code e with
            | 34%N => json_string s2 (34%N :: acc)
            | 92%N => json_string s2 (92%N :: acc)
            | 47%N => json_string s2 (47%N :: acc)
            | 98%N => json_string s2 (8%N :: acc)
            | 102%N => json_string s2 (12%N :: acc)
            | 110%N => json_string s2 (10%N :: acc)
            | 114%N => json_string s2 (13%N :: acc)
            | 116%N => json_string s2 (9%N :: acc)
            | 117%N =>
                match s2 with
                | String h1 (String h2 (String h3 (String h4 s6))) =>
                    match hex4 h1 h2 h3 h4 with
                    | Some v => json_string s6 (v :: acc)
                    | None => None
                    end
                | _ => None
                end
            | _ => None
            end
        | EmptyString => None
        end
      else if (u <? 32)%N then None
      else json_string s1 (u :: acc)
  end.

(** The integer part: a single 0, or a run of digits that starts with 1-9. *)
Definition json_int (s : string) : option (ustring * string) :=
  match s with
  | String c s' =>
      if (code c =? 48)%N then Some ([48%N], s')
      else match span_digits s with
           | ([], _) => None
           | (d, r) => Some (d, r)
           end
  | EmptyString => None
  end.

Definition json_frac (s : string) : option (ustring * string) :=
  match s with
  | String c s' =>
      if (code c =? 46)%N then
        match span_digits s' with
        | ([], _) => None
        | (d, r) => Some (d, r)
        end
      else Some ([], s)
  | EmptyString => Some ([], s)
  end.

(** The digits of an exponent, negated after a minus sign. *)
Definition exp_digits (neg : bool) (t : string) : option (Z * string) :=
  match span_digits t with
  | ([], _) => None
  | (d, r) =>
      match digits_from 10 0 d with
      | Some e => Some ((if neg then - e else e)%Z, r)
      | None => None
      end
  end.

Definition json_exp (s : string) : option (Z * string) :=
  match s with
  | String c s' =>
      if (code c =? 101)%N || (code c =? 69)%N then
        match s' with
        | String g s2 =>
            if (code g =? 43)%N then exp_digits false s2
            else if (code g =? 45)%N then exp_digits true s2
            else exp_digits false s'
        | EmptyString => None
        end
      else Some (0%Z, s)
  | EmptyString => Some (0%Z, s)
  end.

Definition json_number (s : string) : presult json :=
  let (neg, s1) :=
    match s with
    | String c s' => if (code c =? 45)%N then (true, s') else (false, s)
    | EmptyString => (false, s)
    end in
  match json_int s1 with
  | None => PFail
  | Some (ip, s2) =>
      match json_frac s2 with
      | None => PFail
      | Some (fp, s3) =>
          match json_exp s3 with
          | None => PFail
          | Some (e, s4) =>
              match digits_from 10 0 (ip ++ fp)%list with
              | Some sig =>
                  POk (JNum (scale10 neg sig (e - Z.of_nat (List.length fp)))) s4
              | None => PFail
              end
          end
      end
  end.

(** [CreateDataProperty]: a repeated key keeps its place and takes the
    new value. *)
Fixpoint set_property (k : ustring) (v : json) (m : list (ustring * json))
    : list (ustring * json) :=
  match m with
  | [] => [(k, v)]
  | (k', v') :: m' =>
      if ustring_eqb k' k then (k', v) :: m' else (k', v') :: set_property k v m'
  end.

(** Elements after the opening bracket, the first one being due. *)
Fixpoint json_elements (pv : string -> presult json) (fuel : nat)
    (acc : list json) (s : string) : presult (list json) :=
  match fuel with
  | O => PFuel
  | S f =>
      match pv s with
      | POk v r =>
          match skip_ws r with
          | String c r2 =>
              if (code c =? 44)%N then json_elements pv f (v :: acc) (skip_ws r2)
              else if (code c =? 93)%N then POk (rev (v :: acc)) r2
              else PFail
          | EmptyString => PFail
          end
      | PFail => PFail
      | PFuel => PFuel
      end
  end.

(** Members after the opening brace, the first one being due. *)
Fixpoint json_members (pv : string -> presult json) (fuel : nat)
    (acc : list (ustring * json)) (s : string) : presult (list (ustring * json)) :=
  match fuel with
  | O => PFuel
  | S f =>
      match s with
      | String q s1 =>
          if (code q =? 34)%N then
            match json_string s1 [] with
            | Some (key, r) =>
                match skip_ws r with
                | String c r1 =>
                    if (code c =? 58)%N then
                      match pv (skip_ws r1) with
                      | POk v r2 =>
                          match skip_ws r2 with
                          | String d r3 =>
                              if (code d =? 44)%N then
                                json_members pv f (set_property key v acc) (skip_ws r3)
                              else if (code d =? 125)%N then
                                POk (set_property key v acc) r3
                              else PFail
                          | EmptyString => PFail
                          end
                      | PFail => PFail
                      | PFuel => PFuel
                      end
                    else PFail
                | EmptyString => PFail
                end
            | None => PFail
            end
          else PFail
      | EmptyString => PFail
      end
  end.

(** The text after the keyword [p], when the text starts with it. *)
Fixpoint strip_prefix (p s : string) : option string :=
  match p, s with
  | EmptyString, _ => Some s
  | String a p', String b s' =>
      if (code a =? code b)%N then strip_prefix p' s' else None
  | String _ _, EmptyString => None
  end.

Fixpoint json_value (fuel : nat) (s : string) : presult json :=
  match fuel with
  | O => PFuel
  | S f =>
      match s with
      | EmptyString => PFail
      | String c s1 =>
          let u := code c in
          if (u =? 123)%N then
            match skip_ws s1 with
            | String c2 s3 =>
                if (code c2 =? 125)%N then POk (JObj []) s3
                else
                  match json_members (json_value f) f [] (skip_ws s1) with
                  | POk m r => POk (JObj m) r
                  | PFail => PFail
                  | PFuel => PFuel
                  end
            | EmptyString => PFail
            end
          else if (u =? 91)%N then
            match skip_ws s1 with
            | String c2 s3 =>
                if (code c2 =? 93)%N then POk (JArr []) s3
                else
                  match json_elements (json_value f) f [] (skip_ws s1) with
                  | POk l r => POk (JArr l) r
                  | PFail => PFail
                  | PFuel => PFuel
                  end
            | EmptyString => PFail
            end
          else if (u =? 34)%N then
            match json_string s1 [] with
            | Some (w, r) => POk (JStr w) r
            | None => PFail
            end
          else
            match strip_prefix "true" s, strip_prefix "false" s, strip_prefix "null" s with
            | Some r, _, _ => POk (JBool true) r
            | _, Some r, _ => POk (JBool false) r
            | _, _, Some r => POk JNull r
            | None, None, None => json_number s
            end
      end
  end.

(** [JSON.parse(text)]; [None] is the SyntaxError. *)
Definition JSON_parse (text : string) : option json :=
  match json_value (S (length text)) (skip_ws text) with
  | POk v r => match skip_ws r with EmptyString => Some v | _ => None end
  | _ => None
  end.

(** *** Object.values and ToNumber on parsed JSON *)

(** [Object.values(v)]; [None] is the TypeError on [null].  The values of
    an object come in insertion order; keys that are array indices would
    come first, in numeric order, which no consumer here can observe. *)
Definition Object_values (v : json) : option (list json) :=
  match v with
  | JNull => None
  | JBool _ | JNum _ => Some []
  | JStr s => Some (map (fun u => JStr [u]) s)
  | JArr l => Some l
  | JObj m => Some (map snd m)
  end.

Definition has_key (k : ustring) (m : list (ustring * json)) : bool :=
  existsb (fun kv => ustring_eqb (fst kv) k) m.

(** ToString fails on an object that has an own [toString] property (a
    JSON value is never callable), and on an array that holds such an
    object. *)
Fixpoint toString_throws (v : json) : bool :=
  match v with
  | JObj m => has_key (units "toString") m
  | JArr l => existsb toString_throws l
  | _ => false
  end.

(** StringToNumber of the text of an array element inside [join]: [null]
    gives the empty text, two elements or more a comma, a Number its
    shortest round-trip text (so the value itself, [-0] losing its sign). *)
Fixpoint element_number (v : json) : number :=
  match v with
  | JNull => pos_zero
  | JBool _ => NaN
  | JNum (S754_zero _) => pos_zero
  | JNum x => x
  | JStr s => StringToNumber s
  | JObj _ => NaN
  | JArr [] => pos_zero
  | JArr [e] => element_number e
  | JArr _ => NaN
  end.

(** [ToNumber(v)]; [None] is the TypeError of ToPrimitive. *)
Definition ToNumber (v : json) : option number :=
  match v with
  | JNull => Some pos_zero
  | JBool b => Some (if b then num 1 else pos_zero)
  | JNum x => Some x
  | JStr s => Some (StringToNumber s)
  | JObj _ | JArr _ =>
      if toString_throws v then None else Some (element_number v)
  end.

(** The argument coercion of [Math.max(...values)], left to right. *)
Fixpoint ToNumbers (l : list json) : option (list number) :=
  match l with
  | [] => Some []
  | v :: l' =>
      match ToNumber v, ToNumbers l' with
      | Some x, Some xs => Some (x :: xs)
      | _, _ => None
      end
  end.

End JS.

(* ===================================================================== *)
(** ** The metrics bridge ([bun.ts])                                      *)
(* ===================================================================== *)

Module Bridge.
Import JS.

(** A call that may end in a TypeError (a method call on [undefined]). *)
Inductive result (A : Type) :=
| Ok (a : A)
| Throw.
Arguments Ok {A} a.
Arguments Throw {A}.

Definition bind {A B} (c : result A) (f : A -> result B) : result B :=
  match c with
  | Ok a => f a
  | Throw => Throw
  end.

Notation "x <- c ;; k" := (bind c (fun x => k))
  (at level 61, c at next level, right associativity).

(** [a ?? b] *)
Definition nullish {A} (a b : option A) : option A :=
  match a with
  | Some _ => a
  | None => b
  end.

Definition nl : string := String (ascii_of_nat 10) EmptyString.

(** *** Types *)

Record GPUStats := {
  freq_mhz : option number;
  active_pct : option number;
  idle_pct : option number;
  power_mw : option number
}.

Inductive MemoryPressure := green | yellow | red | unknown.

Record MemoryStats := {
  pressure : MemoryPressure;
  swap_gb : option number
}.

Record PerfStats := {
  ms_per_step : option number;
  tokens_per_s : option number
}.

Inductive ThermalPressure := nominal | moderate | heavy | critical | pressure_unknown.

Record ThermalSource := {
  pmset_ok : bool;
  powermetrics_smc_ok : bool;
  m4_temp_ok : bool
}.

Record ThermalStats := {
  cpu_speed_limit_pct : option number;
  gpu_speed_limit_pct : option number;
  thermal_pressure : ThermalPressure;
  cpu_temp_c : option number;
  gpu_temp_c : option number;
  soc_temp_c : option number;
  source : ThermalSource
}.

(** *** run *)

(** What the spawned process did: the status its [exited] promise
    resolves to, and the text read from each pipe ([None] when the read
    was rejected). *)
Record process := {
  exit_code : Z;
  out_text : option string;
  err_text : option string
}.

Record run_result := { ok : bool; stdout : string; stderr : string }.

Definition or_empty (t : option string) : string :=
  match t with
  | Some s => s
  | None => ""
  end.

(** What [run] returns once the process has been spawned and both reads
    have settled. *)
Definition run (p : process) : run_result :=
  {| ok := (exit_code p =? 0)%Z;
     stdout := or_empty (out_text p);
     stderr := or_empty (err_text p) |}.

(** *** Patterns *)

Definition ws : cclass := [CWhite].
Definition digits_dot : cclass := [CRange "0" "9"; CChar "."].
Definition letters : cclass := [CRange "A" "Z"; CRange "a" "z"].

Local Open Scope regex_scope.

(** [/<label>\s*([0-9.]+)\s*<unit>/i] *)
Definition labelled (label unit : string) : RegExp :=
  {| pattern := Lit label +> Star ws +> Group 1 (Plus digits_dot) +> Star ws +> Lit unit;
     ignoreCase := true |}.

(** [/<name>\s*=\s*([0-9.]+)/i] *)
Definition assigned (name : string) : RegExp :=
  {| pattern := Lit name +> Star ws +> Lit "=" +> Star ws +> Group 1 (Plus digits_dot);
     ignoreCase := true |}.

(** [/<label>\s*([A-Za-z]+)/i] *)
Definition worded (label : string) : RegExp :=
  {| pattern := Lit label +> Star ws +> Group 1 (Plus letters);
     ignoreCase := true |}.

Definition re_gpu_freq := labelled "GPU HW active frequency:" "MHz".
Definition re_gpu_active := labelled "GPU HW active residency:" "%".
Definition re_gpu_idle := labelled "GPU idle residency:" "%".
Definition re_gpu_power := labelled "GPU Power:" "mW".

(** [/used\s*=\s*([0-9.]+)([MG])\b/i] *)
Definition re_swap_used : RegExp :=
  {| pattern := Lit "used" +> Star ws +> Lit "=" +> Star ws
                +> Group 1 (Plus digits_dot)
                +> Group 2 (Set1 [CChar "M"; CChar "G"]) +> WordBoundary;
     ignoreCase := true |}.

Definition re_cpu_limit := assigned "CPU_Speed_Limit".
Definition re_gpu_limit := assigned "GPU_Speed_Limit".

(** [/ThermalPressure\s*=\s*([A-Za-z]+)/i] *)
Definition re_pressure_assigned : RegExp :=
  {| pattern := Lit "ThermalPressure" +> Star ws +> Lit "=" +> Star ws
                +> Group 1 (Plus letters);
     ignoreCase := true |}.
Definition re_pressure_colon := worded "Thermal Pressure:".
Definition re_pressure_level := worded "Current pressure level:".

Definition re_cpu_die := labelled "CPU die temperature:" "C".
Definition re_cpu_temp := labelled "CPU temperature:" "C".
Definition re_gpu_die := labelled "GPU die temperature:" "C".
Definition re_gpu_temp := labelled "GPU temperature:" "C".
Definition re_soc_die := labelled "SoC die temperature:" "C".
Definition re_SOC_die := labelled "SOC die temperature:" "C".
Definition re_pmu_die := labelled "PMU die temperature:" "C".

Local Close Scope regex_scope.

(** *** Parsers *)

Definition matchNumber (hay : string) (re : RegExp) : option number :=
  match String_match hay re with
  | None => None
  | Some m =>
      let n := Number (cap m 1) in
      if isFinite n then Some n else None
  end.

Definition parsePowermetricsGPU (out : string) : GPUStats :=
  {| freq_mhz := matchNumber out re_gpu_freq;
     active_pct := matchNumber out re_gpu_active;
     idle_pct := matchNumber out re_gpu_idle;
     power_mw := matchNumber out re_gpu_power |}.

Definition parseMemoryPressure (out : string) : MemoryPressure :=
  let lower := toLowerCase out in
  if includes lower "critical" || includes lower "red" then red
  else if includes lower "warn" || includes lower "warning" || includes lower "yellow"
       then yellow
  else if includes lower "normal" || includes lower "green" || includes lower "77%"
       then green
  else if includes lower "memory free percentage" then green
  else unknown.

Definition parseSwapUsage (sysctlOut : string) : result (option number) :=
  match String_match sysctlOut re_swap_used with
  | None => Ok None
  | Some used =>
      let val := Number (cap used 1) in
      match cap used 2 with
      | None => Throw
      | Some u =>
          let unit := toUpperCase u in
          if negb (isFinite val) then Ok None
          else Ok (Some (if ustring_eqb unit (units "G") then val
                         else div val (num 1024)))
      end
  end.

Record PmsetTherm := {
  cpuLim : option number;
  gpuLim : number;
  pmset_pressure : ThermalPressure
}.

Definition is_unknown (p : ThermalPressure) : bool :=
  match p with
  | pressure_unknown => true
  | _ => false
  end.

(** [a || b || c] over match results *)
Definition first_match (a b c : option match_array) : option match_array :=
  match a with
  | Some _ => a
  | None => match b with
            | Some _ => b
            | None => c
            end
  end.

Definition parsePmsetTherm (out : string) : result PmsetTherm :=
  let cpu := matchNumber out re_cpu_limit in
  let gpu := matchNumber out re_gpu_limit in
  let m := first_match (String_match out re_pressure_assigned)
                       (String_match out re_pressure_colon)
                       (String_match out re_pressure_level) in
  p0 <- match m with
        | None => Ok pressure_unknown
        | Some a =>
            match cap a 1 with
            | None => Throw
            | Some w =>
                let v := toLowerCase w in
                Ok (if includes v "nominal" then nominal
                    else if includes v "moderate" then moderate
                    else if includes v "heavy" then heavy
                    else if includes v "critical" then critical
                    else pressure_unknown)
            end
        end ;;
  let p1 :=
    if is_unknown p0
       && (includes out "No thermal warning level has been recorded"
           || includes out "Nominal")
    then nominal else p0 in
  let finalCpuLim :=
    nullish cpu (if includes out "No CPU power status has been recorded"
                 then Some (num 100) else None) in
  let finalGpuLim := match gpu with Some x => x | None => num 100 end in
  Ok {| cpuLim := finalCpuLim; gpuLim := finalGpuLim; pmset_pressure := p1 |}.

Record Temps := {
  cpu : option number;
  gpu : option number;
  soc : option number
}.

Definition parsePowermetricsSMCTemps (out : string) : Temps :=
  {| cpu := nullish (matchNumber out re_cpu_die) (matchNumber out re_cpu_temp);
     gpu := nullish (matchNumber out re_gpu_die) (matchNumber out re_gpu_temp);
     soc := nullish (matchNumber out re_soc_die)
              (nullish (matchNumber out re_SOC_die) (matchNumber out re_pmu_die)) |}.

(** *** Probes *)

Record probe (T : Type) := { stats : T; raw : string; probe_ok : bool }.
Arguments stats {T} p.
Arguments raw {T} p.
Arguments probe_ok {T} p.

Definition combined (r : run_result) : string := stdout r ++ stderr r.

Definition getGPU (powermetrics : process) : probe GPUStats :=
  let r := run powermetrics in
  let raw := combined r in
  {| stats := parsePowermetricsGPU raw; raw := raw; probe_ok := ok r |}.

Definition getMemory (memory_pressure sysctl : process) : result (probe MemoryStats) :=
  let mp := run memory_pressure in
  let swap := run sysctl in
  let mpRaw := combined mp in
  let swapRaw := combined swap in
  sw <- parseSwapUsage swapRaw ;;
  Ok {| stats := {| pressure := parseMemoryPressure mpRaw; swap_gb := sw |};
        raw := "=== memory_pressure -Q ===" ++ nl ++ mpRaw ++ nl ++ nl
               ++ "=== sysctl vm.swapusage ===" ++ nl ++ swapRaw ++ nl;
        probe_ok := ok mp && ok swap |}.

(** The body of the [try]: any exception leaves [t] as it was. *)
Definition sensor_fallback (m4Raw : string) (t : Temps) : Temps :=
  match JSON_parse m4Raw with
  | None => t
  | Some data =>
      match Object_values data with
      | None => t
      | Some temps =>
          if (0 <? List.length temps)%nat then
            match ToNumbers temps with
            | None => t
            | Some xs =>
                let maxTemp := Math_max xs in
                {| cpu := Some maxTemp; gpu := Some maxTemp; soc := Some maxTemp |}
            end
          else t
      end
  end.

Definition is_null {A} (a : option A) : bool :=
  match a with
  | None => true
  | Some _ => false
  end.

Definition getThermals (pmset_p smc_p m4temp_p : process) : result (probe ThermalStats) :=
  let pmset := run pmset_p in
  let smc := run smc_p in
  let m4temp := run m4temp_p in
  let pmsetRaw := combined pmset in
  let smcRaw := combined smc in
  let m4Raw := combined m4temp in
  p <- parsePmsetTherm (pmsetRaw ++ nl ++ smcRaw) ;;
  let t0 := parsePowermetricsSMCTemps smcRaw in
  let t :=
    if is_null (cpu t0) && is_null (gpu t0) && is_null (soc t0) && ok m4temp
    then sensor_fallback m4Raw t0 else t0 in
  Ok {| stats :=
          {| cpu_speed_limit_pct := cpuLim p;
             gpu_speed_limit_pct := Some (gpuLim p);
             thermal_pressure := pmset_pressure p;
             cpu_temp_c := nullish (cpu t) None;
             gpu_temp_c := nullish (gpu t) None;
             soc_temp_c := nullish (soc t) None;
             source := {| pmset_ok := ok pmset;
                          powermetrics_smc_ok := ok smc;
                          m4_temp_ok := ok m4temp |} |};
        raw := "=== pmset -g therm ===" ++ nl ++ pmsetRaw ++ nl ++ nl
               ++ "=== powermetrics (smc) ===" ++ nl ++ smcRaw ++ nl ++ nl
               ++ "=== M4Temp (HID) ===" ++ nl ++ m4Raw ++ nl;
        probe_ok := ok pmset || ok smc || ok m4temp |}.

Definition getPerf : PerfStats := {| ms_per_step := None; tokens_per_s := None |}.

(** *** The /metrics handler *)

Record Snapshot := {
  ts : string;
  snap_gpu : GPUStats;
  snap_memory : MemoryStats;
  snap_thermal : ThermalStats;
  snap_perf : PerfStats;
  gpu_pinned : bool;
  warnings : list string
}.

(** The six commands of one request, and the clock. *)
Record request := {
  now : string;
  gpu_power : process;          (* powermetrics --samplers gpu_power *)
  memory_pressure : process;    (* memory_pressure -Q *)
  swapusage : process;          (* sysctl vm.swapusage *)
  pmset_therm : process;        (* pmset -g therm *)
  smc_thermal : process;        (* powermetrics --samplers smc,thermal *)
  m4temp : process              (* swift ./M4Temp.swift *)
}.

Definition warn_gpu : string :=
  "GPU stats missing: powermetrics likely needs sudo.".
Definition warn_pmset : string :=
  "Thermal stats missing: pmset -g therm failed.".
Definition warn_temps : string :=
  "Temperature sensors (CPU/GPU) are not available via standard powermetrics on M4 Max / macOS 15+.".

Definition when (b : bool) (w : string) : list string := if b then [w] else [].

Definition pinned_of (g : GPUStats) : bool :=
  let active := nullish (active_pct g) None in
  let idle := nullish (idle_pct g) None in
  match active, idle with
  | Some a, Some i => ge a (num 95) && le i (num 2)
  | _, _ => false
  end.

Definition warnings_of (g : GPUStats) (t : ThermalStats) : list string :=
  (when (is_null (freq_mhz g) && is_null (power_mw g)) warn_gpu
   ++ when (negb (pmset_ok (source t))) warn_pmset
   ++ when (negb (powermetrics_smc_ok (source t)) && negb (m4_temp_ok (source t)))
        warn_temps)%list.

Definition metrics (q : request) : result Snapshot :=
  let gpu := getGPU (gpu_power q) in
  mem <- getMemory (memory_pressure q) (swapusage q) ;;
  therm <- getThermals (pmset_therm q) (smc_thermal q) (m4temp q) ;;
  let perf := getPerf in
  Ok {| ts := now q;
        snap_gpu := stats gpu;
        snap_memory := stats mem;
        snap_thermal := stats therm;
        snap_perf := perf;
        gpu_pinned := pinned_of (stats gpu);
        warnings := warnings_of (stats gpu) (stats therm) |}.

End Bridge.

(* ===================================================================== *)
(** ** Vocabulary of the statements                                       *)
(* ===================================================================== *)

Module Spec.
Import JS Bridge.

(** [t] occurs in [s]. *)
Definition contains (s t : string) : Prop :=
  exists pre post, s = pre ++ t ++ post.

Fixpoint all_chars (p : ascii -> bool) (s : string) : bool :=
  match s with
  | EmptyString => true
  | String c s' => p c && all_chars p s'
  end.

(** A digit or the dot, as a code unit. *)
Definition dd (u : N) : bool := is_digit_unit u || (u =? 46)%N.

(** The states a greedy run over a class can stop in. *)
Inductive run_of (ci : bool) (c : cclass) : mstate -> mstate -> Prop :=
| run_stop st : run_of ci c st st
| run_more st ch s' st1 :
    rest st = String ch s' ->
    class_matches ci c ch = true ->
    run_of ci c (advance st ch s') st1 ->
    run_of ci c st st1.

(** [reach ci r st st1]: the pattern [r] can take the state [st] to
    [st1].  The matcher only ever hands such states to its continuation. *)
Fixpoint reach (ci : bool) (r : regex) (st st1 : mstate) : Prop :=
  match r with
  | Lit p => lit_match ci p st = Some st1
  | Set1 c =>
      exists ch s', rest st = String ch s' /\ class_matches ci c ch = true
                    /\ st1 = advance st ch s'
  | Star c => run_of ci c st st1
  | Plus c =>
      exists ch s', rest st = String ch s' /\ class_matches ci c ch = true
                    /\ run_of ci c (advance st ch s') st1
  | Group n r' => exists st2, reach ci r' st st2 /\ st1 = set_cap n st st2
  | WordBoundary => at_word_boundary st = true /\ st1 = st
  | Cat r1 r2 => exists st2, reach ci r1 st st2 /\ reach ci r2 st2 st1
  end.

(** The pattern can match from some position of [s]; [pv] is the code
    unit before [s], none at the start of the text. *)
Fixpoint occurs (re : RegExp) (pv : option ascii) (s : string) : Prop :=
  (exists st, reach (ignoreCase re) (pattern re)
                {| prev := pv; rest := s; caps := [] |} st)
  \/ match s with
     | EmptyString => False
     | String ch s' => occurs re (Some ch) s'
     end.

(** A non-empty text of digits and dots, what [([0-9.]+)] captures. *)
Definition number_text (w : string) : Prop :=
  w <> "" /\ all_chars (class_matches true digits_dot) w = true.

(** A Number that is not below zero: the sign bit is clear, or it is a
    zero. *)
Definition not_negative (x : number) : bool :=
  match x with
  | S754_zero _ => true
  | S754_infinity s | S754_finite s _ _ => negb s
  | S754_nan => false
  end.

(** The unit of a swap token: [G] keeps the value, [M] divides it by
    1024; the pattern lets either letter come in lower case. *)
Definition gigabytes (value : number) (unit : ascii) : number :=
  if (unit =? "G")%char || (unit =? "g")%char then value
  else div value (num 1024).

Definition is_swap_unit (u : ascii) : Prop :=
  (u = "M" \/ u = "m" \/ u = "G" \/ u = "g")%char.

(** A value parser that is sound for texts shorter than [bound]: it
    does not run out of fuel, and it consumes something. *)
Definition fuelled (pv : string -> presult json) (bound : nat) : Prop :=
  forall s, (length s < bound)%nat ->
    pv s <> PFuel /\ forall v r, pv s = POk v r -> (length r < length s)%nat.

(** A parsed value that, if it is a Number, is not NaN. *)
Definition plain_number (v : json) : Prop :=
  match v with
  | JNum x => x <> NaN
  | _ => True
  end.

(** The pattern finds nothing in the text. *)
Definition unmatched (text : string) (re : RegExp) : Prop :=
  String_match text re = None.

(** None of the three thermal-pressure phrasings occurs. *)
Definition no_pressure_phrase (text : string) : Prop :=
  unmatched text re_pressure_assigned /\ unmatched text re_pressure_colon
  /\ unmatched text re_pressure_level.

(** The markers the memory-pressure classifier looks for. *)
Definition pressure_markers : list string :=
  ["critical"; "red"; "warn"; "warning"; "yellow"; "normal"; "green"; "77%";
   "memory free percentage"].

(** What [pmset -g therm] prints on a machine that never throttled. *)
Definition pmset_quiet : string :=
  "Note: No thermal warning level has been recorded" ++ nl
  ++ "Note: No performance warning level has been recorded" ++ nl
  ++ "Note: No CPU power status has been recorded" ++ nl.

(** The place of a Number other than NaN in the order of [<=], as a
    triple compared left to right: the kind (negative infinity, negative,
    zero, positive, positive infinity), then exponent and significand,
    both negated below zero. *)
Definition rank (x : number) : Z * Z * Z :=
  match x with
  | S754_infinity true => (-2, 0, 0)
  | S754_finite true m e => (-1, - e, - Zpos m)
  | S754_zero _ | S754_nan => (0, 0, 0)
  | S754_finite false m e => (1, e, Zpos m)
  | S754_infinity false => (2, 0, 0)
  end%Z.

Definition rank_le (a b : Z * Z * Z) : Prop :=
  let '(a1, a2, a3) := a in
  let '(b1, b2, b3) := b in
  (a1 < b1 \/ (a1 = b1 /\ (a2 < b2 \/ (a2 = b2 /\ a3 <= b3))))%Z.

Definition rank_lt (a b : Z * Z * Z) : Prop :=
  let '(a1, a2, a3) := a in
  let '(b1, b2, b3) := b in
  (a1 < b1 \/ (a1 = b1 /\ (a2 < b2 \/ (a2 = b2 /\ a3 < b3))))%Z.

(** The text of a JSON document between double quotes. *)
Definition quoted (s : string) : string :=
  String (ascii_of_nat 34) s ++ String (ascii_of_nat 34) EmptyString.

(** A process that ended with status [c] and wrote [o] and [e]. *)
Definition exited (c : Z) (o e : string) : process :=
  {| exit_code := c; out_text := Some o; err_text := Some e |}.

(** A request whose GPU sampler printed [gpu_text] and whose other
    commands all succeeded without output. *)
Definition request_with_gpu (gpu_text : string) : request :=
  {| now := "2026-01-01T00:00:00.000Z";
     gpu_power := exited 0 gpu_text "";
     memory_pressure := exited 0 "" "";
     swapusage := exited 0 "" "";
     pmset_therm := exited 0 "" "";
     smc_thermal := exited 0 "" "";
     m4temp := exited 0 "" "" |}.

(** A sample of [powermetrics --samplers gpu_power]. *)
Definition gpu_sample : string :=
  "**** GPU usage ****" ++ nl
  ++ "GPU HW active frequency: 1398 MHz" ++ nl
  ++ "GPU HW active residency:  99.50% (444 MHz: 0% 1398 MHz: 99.5%)" ++ nl
  ++ "GPU idle residency:   0.50%" ++ nl
  ++ "GPU Power: 12345 mW" ++ nl.

(** A sample of [sysctl vm.swapusage]. *)
Definition swap_sample : string :=
  "vm.swapusage: total = 2048.00M  used = 1234.50M  free = 813.50M  (encrypted)".

(** The helper output of the specification's example. *)
Definition helper_sample : string :=
  "{" ++ quoted "a" ++ ":10," ++ quoted "b" ++ ":22.5}".

End Spec.

(* ===================================================================== *)
(** ** The command line ([bin.ts])                                        *)
(* ===================================================================== *)

Module Cli.
Import JS.

(** The text of an environment variable: a text, or [String(n)] of a
    Number, which [Number] reads back as [n] when [n] is finite and not
    [-0]. *)
Inductive env_text :=
| Text (s : string)
| NumberText (n : number).

Record environment := {
  PORT : option env_text;
  HOST : option string
}.

(** How the script ends: [process.exit(code)] after at most one line on
    standard error, or the import of the server under the environment
    the flags built. *)
Inductive outcome :=
| Exit (code : Z) (error : option string)
| Serve (env : environment).

(** [s.indexOf(needle)]; [None] is [-1]. *)
Fixpoint indexOf (s needle : string) : option nat :=
  if prefix needle s then Some 0%nat
  else match s with
       | EmptyString => None
       | String _ s' => option_map S (indexOf s' needle)
       end.

(** [s.slice(k)] for [0 <= k] *)
Fixpoint slice (k : nat) (s : string) : string :=
  match k, s with
  | O, _ => s
  | S k', String _ s' => slice k' s'
  | S _, EmptyString => EmptyString
  end.

Definition startsWith (s p : string) : bool := prefix p s.

Definition is_empty (s : string) : bool :=
  match s with
  | EmptyString => true
  | String _ _ => false
  end.

(** [takeArgValue(args, i, flag)], with [a = args[i]] and [rest] the
    arguments after it.  [exit] is what [process.exit] leads to, [k]
    receives the value and the arguments that follow [nextIndex]. *)
Definition takeArgValue {A} (a : string) (rest : list string) (flag : string)
    (exit : outcome -> A) (k : string -> list string -> A) : A :=
  match indexOf a "=" with
  | Some eq => k (slice (S eq) a) rest
  | None =>
      match rest with
      | v :: rest' =>
          if is_empty v || startsWith v "-"
          then exit (Exit 2 (Some ("Missing value for " ++ flag)))
          else k v rest'
      | [] => exit (Exit 2 (Some ("Missing value for " ++ flag)))
      end
  end.

Definition string_eqb (a b : string) : bool := String.eqb a b.

Definition is_help (a : string) : bool :=
  string_eqb a "--help" || string_eqb a "-?" || string_eqb a "-help".

Definition is_port (a : string) : bool :=
  string_eqb a "--port" || startsWith a "--port=" || string_eqb a "-p".

Definition is_host (a : string) : bool :=
  string_eqb a "--host" || startsWith a "--host=" || string_eqb a "-h".

(** The [for] loop over [argv], from the argument at hand. *)
Fixpoint parse_args (argv : list string) (env : environment) : outcome :=
  match argv with
  | [] => Serve env
  | a :: rest =>
      if is_help a then Exit 0 None
      else if is_port a then
        takeArgValue a rest "--port" (fun o => o)
          (fun value rest' =>
             let n := Number (Some value) in
             if negb (isFinite n) || le n (num 0) || gt n (num 65535)
             then Exit 2 (Some ("Invalid port: " ++ value))
             else parse_args rest'
                    {| PORT := Some (NumberText n); HOST := HOST env |})
      else if is_host a then
        takeArgValue a rest "--host" (fun o => o)
          (fun value rest' =>
             parse_args rest' {| PORT := PORT env; HOST := Some value |})
      else Exit 2 (Some ("Unknown arg: " ++ a ++ String (ascii_of_nat 10) ""))
  end.

(** [const PORT = Number(process.env.PORT ?? 8787)] *)
Definition server_port (env : environment) : number :=
  match PORT env with
  | Some (Text s) => Number (Some s)
  | Some (NumberText n) => n
  | None => num 8787
  end.

(** [const HOST = process.env.HOST ?? "127.0.0.1"] *)
Definition server_host (env : environment) : string :=
  match HOST env with
  | Some h => h
  | None => "127.0.0.1"
  end.

End Cli.

(* ===================================================================== *)
(** ** The routes of the server ([bun.ts], [fetch])                       *)
(* ===================================================================== *)

Module Server.
Import JS Bridge.

(** What a handler hands to [JSON.stringify]. *)
Inductive payload :=
| Alive                        (* { ok: true } *)
| Metrics (snap : Snapshot).

(** The body of a response: the JSON text of a payload (the serialiser
    is the runtime's), a text, or a file of the server. *)
Inductive content :=
| JsonText (data : payload)
| PlainText (s : string)
| File (path : string).

Record Response := {
  status : Z;
  headers : list (string * string);
  body : content
}.

Definition json (data : payload) (status : Z) : Response :=
  {| status := status;
     headers := [("content-type", "application/json; charset=utf-8");
                 ("access-control-allow-origin", "*");
                 ("access-control-allow-methods", "GET, OPTIONS");
                 ("access-control-allow-headers", "content-type");
                 ("cache-control", "no-store")];
     body := JsonText data |}.

Definition text (data : string) (status : Z) : Response :=
  {| status := status;
     headers := [("content-type", "text/plain; charset=utf-8");
                 ("access-control-allow-origin", "*");
                 ("cache-control", "no-store")];
     body := PlainText data |}.

(** The two things the handler reads off the request; the pathname is
    what the URL parser of the runtime made of [req.url]. *)
Record Request := {
  method : string;
  pathname : string
}.

(** The body of [/raw]. *)
Definition raw_text (gpu : probe GPUStats) (mem : probe MemoryStats)
    (therm : probe ThermalStats) : string :=
  "=== powermetrics (gpu_power) ===" ++ nl ++ raw gpu ++ nl ++ nl
  ++ raw mem ++ nl ++ nl
  ++ raw therm ++ nl.

(** [fetch(req)]: [q] holds what the commands of this request did,
    [dashboard] whether [./dashboard.html] exists. *)
Definition fetch (req : Request) (q : request) (dashboard : bool)
    : result Response :=
  if String.eqb (method req) "OPTIONS" then Ok (json Alive 200)
  else if String.eqb (pathname req) "/health" then Ok (json Alive 200)
  else if String.eqb (pathname req) "/metrics" then
    snap <- metrics q ;;
    Ok (json (Metrics snap) 200)
  else if String.eqb (pathname req) "/raw" then
    let gpu := getGPU (gpu_power q) in
    mem <- getMemory (memory_pressure q) (swapusage q) ;;
    therm <- getThermals (pmset_therm q) (smc_thermal q) (m4temp q) ;;
    Ok (text (raw_text gpu mem therm) 200)
  else if String.eqb (pathname req) "/" || String.eqb (pathname req) "/index.html" then
    if dashboard then
      Ok {| status := 200;
            headers := [("content-type", "text/html; charset=utf-8")];
            body := File "./dashboard.html" |}
    else Ok (text ("Place dashboard.html next to bun.ts" ++ nl) 404)
  else Ok (text ("Not found" ++ nl) 404).

(** The value of a header of a response. *)
Fixpoint header (name : string) (hs : list (string * string)) : option string :=
  match hs with
  | [] => None
  | (n, v) :: hs' => if String.eqb n name then Some v else header name hs'
  end.

End Server.

(* ===================================================================== *)
(** ** The sensor helper ([M4Temp.swift])                                 *)
(* ===================================================================== *)

Module M4Temp.
Import JS.

(** What the HID event system reports for one service: its [Product]
    property when it is a string, and the value of its temperature event
    when there is one.  A Swift [String] is a [string] here and a
    [Double] a Number; for texts with code units in U+0000..U+00FF,
    which hold no combining marks, Swift's [contains] and its equality
    of dictionary keys are those of the code units. *)
Record service := {
  product : option string;
  event : option number
}.

(** [results[key] = value] *)
Fixpoint assign (key : string) (value : number) (d : list (string * number))
    : list (string * number) :=
  match d with
  | [] => [(key, value)]
  | (k, v) :: d' =>
      if String.eqb k key then (k, value) :: d' else (k, v) :: assign key value d'
  end.

Fixpoint lookup (key : string) (d : list (string * number)) : option number :=
  match d with
  | [] => None
  | (k, v) :: d' => if String.eqb k key then Some v else lookup key d'
  end.

Definition is_pmu (p : string) : bool :=
  includes p "PMU tdie" || includes p "PMU tcal".

(** The body of the loop over the services. *)
Definition record_service (results : list (string * number)) (s : service)
    : list (string * number) :=
  match product s with
  | Some p =>
      if is_pmu p then
        match event s with
        | Some temp => if gt temp (num 0) then assign p temp results else results
        | None => results
        end
      else results
  | None => results
  end.

(** [results] at the end of [getTemps], for the services the event
    system returned (the entries are the dictionary; their order means
    nothing). *)
Definition getTemps (services : list service) : list (string * number) :=
  fold_left record_service services [].

End M4Temp.

(* ===================================================================== *)
(** ** Vocabulary of the further statements                               *)
(* ===================================================================== *)

Module SpecX.
Import JS Bridge Spec.

(** How alarming a memory-pressure class is. *)
Definition severity (p : MemoryPressure) : nat :=
  match p with
  | red => 3
  | yellow => 2
  | green => 1
  | unknown => 0
  end.




(** The level a captured pressure word stands for. *)
Definition level_of (w : string) : ThermalPressure :=
  let v := toLowerCase w in
  if includes v "nominal" then nominal
  else if includes v "moderate" then moderate
  else if includes v "heavy" then heavy
  else if includes v "critical" then critical
  else pressure_unknown.

(** The first of the three pressure phrasings that matches. *)
Definition pressure_match (out : string) : option match_array :=
  first_match (String_match out re_pressure_assigned)
              (String_match out re_pressure_colon)
              (String_match out re_pressure_level).

(** The position of [st] lies in [hay], and its captures are pieces of
    [hay]. *)
Definition within (hay : string) (st : mstate) : Prop :=
  (exists pre, hay = pre ++ rest st)
  /\ forall n w, In (n, w) (caps st) -> contains hay w.

(** The word of a thermal-pressure level. *)
Definition level_name (l : ThermalPressure) : string :=
  match l with
  | nominal => "nominal"
  | moderate => "moderate"
  | heavy => "heavy"
  | critical => "critical"
  | pressure_unknown => "unknown"
  end.

(** A Number that is finite and not below zero. *)
Definition reading (x : number) : Prop :=
  isFinite x = true /\ le (num 0) x = true.

(** A port the command line accepts. *)
Definition port_in_range (n : number) : Prop :=
  isFinite n = true /\ lt (num 0) n = true /\ le n (num 65535) = true.


(** The paths that run the probes. *)
Definition probes_path (p : string) : bool :=
  String.eqb p "/metrics" || String.eqb p "/raw".

End SpecX.

(* ===================================================================== *)
(** ** The model at work                                                  *)
(* ===================================================================== *)

Import JS Bridge Spec.

Section Runs.

Example gpu_sample_stats :
  parsePowermetricsGPU gpu_sample
  = {| freq_mhz := Some (num 1398);
       active_pct := Some (round_ratio false 199 2);
       idle_pct := Some (round_ratio false 1 2);
       power_mw := Some (num 12345) |}.
Proof. vm_compute. reflexivity. Qed.

Example gpu_sample_pinned : pinned_of (parsePowermetricsGPU gpu_sample) = true.
Proof. vm_compute. reflexivity. Qed.

Example swap_sample_gigabytes :
  parseSwapUsage swap_sample = Ok (Some (div (round_ratio false 2469 2) (num 1024))).
Proof. vm_compute. reflexivity. Qed.

Example swap_unit_needs_boundary : parseSwapUsage "used = 512MB" = Ok None.
Proof. vm_compute. reflexivity. Qed.

Example pressure_words :
  map parseMemoryPressure
    ["System-wide memory free percentage: 77%"; "WARNING"; "Critical"; ""]
  = [green; yellow; red; unknown].
Proof. vm_compute. reflexivity. Qed.

Example throttled :
  parsePmsetTherm ("CPU_Speed_Limit = 80" ++ nl ++ "Current pressure level: Heavy")
  = Ok {| cpuLim := Some (num 80); gpuLim := num 100; pmset_pressure := heavy |}.
Proof. vm_compute. reflexivity. Qed.

Example die_temperatures :
  parsePowermetricsSMCTemps
    ("CPU die temperature: 55.5 C" ++ nl ++ "GPU die temperature: 40 C")
  = {| cpu := Some (round_ratio false 111 2); gpu := Some (num 40); soc := None |}.
Proof. vm_compute. reflexivity. Qed.

Example helper_sample_parsed :
  JSON_parse helper_sample
  = Some (JObj [(units "a", JNum (num 10));
                (units "b", JNum (round_ratio false 45 2))]).
Proof. vm_compute. reflexivity. Qed.

Example repeated_key_last_wins :
  JSON_parse ("{" ++ quoted "a" ++ ":1," ++ quoted "a" ++ ":2}")
  = Some (JObj [(units "a", JNum (num 2))]).
Proof. vm_compute. reflexivity. Qed.

Example not_json : JSON_parse "error: no sensors" = None.
Proof. vm_compute. reflexivity. Qed.

Example all_failed_warnings :
  match metrics {| now := "";
                   gpu_power := exited 1 "" "powermetrics must be invoked as the superuser";
                   memory_pressure := exited 0 "" "";
                   swapusage := exited 0 "" "";
                   pmset_therm := exited 1 "" "";
                   smc_thermal := exited 1 "" "";
                   m4temp := exited 1 "" "" |} with
  | Ok snap => warnings snap = [warn_gpu; warn_pmset; warn_temps]
  | Throw => False
  end.
Proof. vm_compute. reflexivity. Qed.

End Runs.

(* ===================================================================== *)
(** ** Texts                                                              *)
(* ===================================================================== *)

Section Texts.

Lemma prefix_app (p s : string) : prefix p (p ++ s) = true.
Proof.
  induction p as [|a p IH]; simpl.
  - now destruct s.
  - destruct (ascii_dec a a) as [_|n]; [exact IH | now elim n].
Qed.

Lemma prefix_split (p s : string) :
  prefix p s = true -> exists post, s = p ++ post.
Proof.
  revert s; induction p as [|a p IH]; intros s H.
  - now exists s.
  - destruct s as [|b s]; simpl in H; [discriminate|].
    destruct (ascii_dec a b) as [->|]; [|discriminate].
    destruct (IH _ H) as [post ->]. now exists post.
Qed.

Lemma includes_contains (hay needle : string) :
  includes hay needle = true <-> contains hay needle.
Proof.
  split.
  - induction hay as [|c hay IH]; cbn [includes].
    + destruct (prefix needle "") eqn:E; [|intros; discriminate].
      intros _. destruct (prefix_split _ _ E) as [post Hp].
      exists "", post. exact Hp.
    + destruct (prefix needle (String c hay)) eqn:E.
      * intros _. destruct (prefix_split _ _ E) as [post Hp].
        exists "", post. exact Hp.
      * intros H. destruct (IH H) as (pre & post & ->).
        now exists (String c pre), post.
  - intros (pre & post & ->).
    induction pre as [|c pre IH].
    + change ("" ++ needle ++ post) with (needle ++ post).
      destruct (needle ++ post) eqn:E; cbn [includes];
        now rewrite <- E, prefix_app.
    + change (String c pre ++ needle ++ post)
        with (String c (pre ++ needle ++ post)).
      cbn [includes]. rewrite IH.
      now destruct (prefix needle (String c (pre ++ needle ++ post))).
Qed.

Lemma includes_false (hay needle : string) :
  includes hay needle = false <-> ~ contains hay needle.
Proof.
  rewrite <- includes_contains. now destruct (includes hay needle).
Qed.

Lemma toLowerCase_app (a b : string) :
  toLowerCase (a ++ b) = toLowerCase a ++ toLowerCase b.
Proof.
  induction a as [|c a IH]; simpl; [reflexivity | now rewrite IH].
Qed.

Lemma contains_toLowerCase (s w : string) :
  contains s w -> contains (toLowerCase s) (toLowerCase w).
Proof.
  intros (pre & post & ->).
  exists (toLowerCase pre), (toLowerCase post).
  now rewrite !toLowerCase_app.
Qed.

Lemma length_app (a b : string) : length (a ++ b) = length a + length b.
Proof.
  induction a as [|c a IH]; simpl; [reflexivity | now rewrite IH].
Qed.

Lemma take_app (w r : string) : take (length (w ++ r) - length r) (w ++ r) = w.
Proof.
  rewrite length_app.
  replace (length w + length r - length r) with (length w) by lia.
  unfold take. induction w as [|c w IH]; simpl.
  - now destruct r.
  - now rewrite IH.
Qed.

End Texts.

(* ===================================================================== *)
(** ** The memory-pressure classifier                                     *)
(* ===================================================================== *)

Section MemoryPressure.

Variable out : string.

Let lower := toLowerCase out.
Let Red := contains lower "critical" \/ contains lower "red".
Let Yellow :=
  contains lower "warn" \/ contains lower "warning" \/ contains lower "yellow".
Let Green :=
  contains lower "normal" \/ contains lower "green" \/ contains lower "77%".
Let Free := contains lower "memory free percentage".

Let r := includes lower "critical" || includes lower "red".
Let y := includes lower "warn" || includes lower "warning" || includes lower "yellow".
Let g := includes lower "normal" || includes lower "green" || includes lower "77%".
Let f := includes lower "memory free percentage".

Lemma parseMemoryPressure_cases :
  parseMemoryPressure out =
    if r then red else if y then yellow else if g then green
    else if f then green else unknown.
Proof. reflexivity. Qed.

Lemma markers_reflect :
  (Red <-> r = true) /\ (Yellow <-> y = true) /\ (Green <-> g = true)
  /\ (Free <-> f = true).
Proof.
  subst Red Yellow Green Free r y g f.
  rewrite !orb_true_iff, !includes_contains. tauto.
Qed.

(** C2.  The classifier lower-cases the text and answers with the first
    class, in the order red, yellow, green (by word), green (by the
    free-percentage header), unknown, one of whose markers occurs in it;
    a text with "critical" in any mix of cases is red, whatever else it
    holds. *)
Theorem parseMemoryPressure_priority :
  (parseMemoryPressure out = red <-> Red)
  /\ (parseMemoryPressure out = yellow <-> ~ Red /\ Yellow)
  /\ (parseMemoryPressure out = green <-> ~ Red /\ ~ Yellow /\ (Green \/ Free))
  /\ (parseMemoryPressure out = unknown
      <-> ~ Red /\ ~ Yellow /\ ~ Green /\ ~ Free)
  /\ (forall w, toLowerCase w = "critical" -> contains out w ->
      parseMemoryPressure out = red).
Proof.
  rewrite parseMemoryPressure_cases.
  destruct markers_reflect as (HR & HY & HG & HF).
  assert (Hc : forall w, toLowerCase w = "critical" -> contains out w -> r = true).
  { intros w Hl Hc. apply HR. left. rewrite <- Hl.
    now apply contains_toLowerCase. }
  destruct r, y, g, f; repeat split; intros;
    try reflexivity; try discriminate;
    try (specialize (Hc _ H H0); discriminate);
    intuition discriminate.
Qed.

End MemoryPressure.

Lemma parseMemoryPressure_priority_sample :
  parseMemoryPressure "System-wide memory pressure: CRITICAL (was normal)" = red.
Proof.
  destruct (parseMemoryPressure_priority
              "System-wide memory pressure: CRITICAL (was normal)")
    as (_ & _ & _ & _ & H).
  apply (H "CRITICAL"); [reflexivity|].
  exists "System-wide memory pressure: ", " (was normal)". reflexivity.
Defined.

(* ===================================================================== *)
(** ** The pattern matcher                                                *)
(* ===================================================================== *)

Section Matcher.

Variable ci : bool.

Lemma star_match_sound (c : cclass) (k : continuation) cp s :
  forall pv res,
    star_match ci c k cp pv s = Some res ->
    exists st1, run_of ci c {| prev := pv; rest := s; caps := cp |} st1
                /\ k st1 = Some res.
Proof.
  induction s as [|ch s IH]; intros pv res H; cbn [star_match] in H.
  - eexists; split; [apply run_stop | exact H].
  - destruct (class_matches ci c ch) eqn:E.
    + destruct (star_match ci c k cp (Some ch) s) as [r|] eqn:E2.
      * injection H as <-.
        destruct (IH _ _ E2) as (st1 & Hr & Hk).
        exists st1; split; [|exact Hk].
        eapply run_more; [reflexivity | exact E | exact Hr].
      * eexists; split; [apply run_stop | exact H].
    + eexists; split; [apply run_stop | exact H].
Qed.

Lemma rmatch_sound (r : regex) :
  forall k st res,
    rmatch ci r k st = Some res ->
    exists st1, reach ci r st st1 /\ k st1 = Some res.
Proof.
  induction r as [p|c|c|c|n r IH| |r1 IH1 r2 IH2]; intros k st res H;
    cbn [rmatch reach] in *.
  - destruct (lit_match ci p st) as [st'|] eqn:E; [|discriminate].
    now exists st'.
  - destruct (rest st) as [|ch s'] eqn:E; [discriminate|].
    destruct (class_matches ci c ch) eqn:Ec; [|discriminate].
    exists (advance st ch s'); split; [|exact H]. now exists ch, s'.
  - destruct st as [pv s cp]. now apply star_match_sound.
  - destruct (rest st) as [|ch s'] eqn:E; [discriminate|].
    destruct (class_matches ci c ch) eqn:Ec; [|discriminate].
    destruct (star_match_sound _ _ _ _ _ _ H) as (st1 & Hr & Hk).
    exists st1; split; [|exact Hk]. now exists ch, s'.
  - destruct (IH _ _ _ H) as (st2 & Hr & Hk).
    exists (set_cap n st st2); split; [|exact Hk]. now exists st2.
  - destruct (at_word_boundary st) eqn:E; [|discriminate].
    now exists st.
  - destruct (IH1 _ _ _ H) as (st2 & Hr1 & H2).
    destruct (IH2 _ _ _ H2) as (st3 & Hr2 & H3).
    exists st3; split; [|exact H3]. now exists st2.
Qed.

Lemma star_match_complete (c : cclass) (k : continuation) st st1 res :
  run_of ci c st st1 -> k st1 = Some res ->
  exists res', star_match ci c k (caps st) (prev st) (rest st) = Some res'.
Proof.
  intros Hrun Hk. induction Hrun as [st|st ch s' st1 Hr Hc _ IH].
  - destruct st as [pv s cp]; cbn [caps prev rest].
    destruct s as [|ch s']; cbn [star_match]; [eauto|].
    destruct (class_matches ci c ch); [|eauto].
    destruct (star_match ci c k cp (Some ch) s'); eauto.
  - destruct (IH Hk) as [res' Hres]. cbn [advance caps prev rest] in Hres.
    rewrite Hr. cbn [star_match]. rewrite Hc, Hres. eauto.
Qed.

(** Whenever the pattern can reach a state that the continuation
    accepts, the matcher succeeds. *)
Lemma rmatch_complete (r : regex) :
  forall k st st1 res,
    reach ci r st st1 -> k st1 = Some res ->
    exists res', rmatch ci r k st = Some res'.
Proof.
  induction r as [p|c|c|c|n r IH| |r1 IH1 r2 IH2]; intros k st st1 res Hr Hk;
    cbn [rmatch reach] in *.
  - rewrite Hr. eauto.
  - destruct Hr as (ch & s' & -> & -> & ->). eauto.
  - eapply star_match_complete; eauto.
  - destruct Hr as (ch & s' & Hrest & Hc & Hrun). rewrite Hrest, Hc.
    apply (star_match_complete _ _ _ _ _ Hrun Hk).
  - destruct Hr as (st2 & Hr & ->).
    apply (IH (fun st' => k (set_cap n st st')) _ _ _ Hr Hk).
  - destruct Hr as (Hb & ->). rewrite Hb. eauto.
  - destruct Hr as (st2 & Hr1 & Hr2).
    destruct (IH2 _ _ _ _ Hr2 Hk) as [res2 H2].
    apply (IH1 _ _ _ _ Hr1 H2).
Qed.

Lemma lit_match_caps (p : string) :
  forall st st1, lit_match ci p st = Some st1 -> caps st1 = caps st.
Proof.
  induction p as [|a p IH]; intros st st1 H; cbn [lit_match] in H.
  - now injection H as <-.
  - destruct (rest st) as [|ch s']; [discriminate|].
    destruct (char_matches ci a ch); [|discriminate].
    now rewrite (IH _ _ H).
Qed.

Lemma run_of_inv (c : cclass) st st1 :
  run_of ci c st st1 ->
  caps st1 = caps st
  /\ exists w, rest st = w ++ rest st1
               /\ all_chars (class_matches ci c) w = true.
Proof.
  induction 1 as [st|st ch s' st1 Hr Hc _ (IHc & w & IHr & IHw)].
  - split; [reflexivity|]. now exists "".
  - split; [exact IHc|].
    exists (String ch w); split.
    + rewrite Hr. cbn in IHr |- *. now rewrite IHr.
    + cbn. now rewrite Hc.
Qed.

Lemma consumed_app st st1 w : rest st = w ++ rest st1 -> consumed st st1 = w.
Proof. intros H. unfold consumed. rewrite H. apply take_app. Qed.

Lemma plus_inv (c : cclass) st st1 :
  reach ci (Plus c) st st1 ->
  caps st1 = caps st
  /\ exists w, w <> "" /\ all_chars (class_matches ci c) w = true
               /\ consumed st st1 = w.
Proof.
  intros (ch & s' & Hr & Hc & Hrun).
  destruct (run_of_inv _ _ _ Hrun) as (Hcaps & w & Hw & Hall).
  split; [exact Hcaps|].
  exists (String ch w); repeat split.
  - discriminate.
  - cbn. now rewrite Hc.
  - apply consumed_app. rewrite Hr. cbn in Hw |- *. now rewrite Hw.
Qed.

Lemma set1_inv (c : cclass) st st1 :
  reach ci (Set1 c) st st1 ->
  caps st1 = caps st
  /\ exists ch, class_matches ci c ch = true
                /\ consumed st st1 = String ch "".
Proof.
  intros (ch & s' & Hr & Hc & ->).
  split; [reflexivity|].
  exists ch; split; [exact Hc|].
  apply consumed_app. now rewrite Hr.
Qed.

Lemma reach_cat r1 r2 st st1 :
  reach ci (Cat r1 r2) st st1 ->
  exists st2, reach ci r1 st st2 /\ reach ci r2 st2 st1.
Proof. exact (fun H => H). Qed.

Lemma reach_group n r st st1 :
  reach ci (Group n r) st st1 ->
  exists st2, reach ci r st st2 /\ st1 = set_cap n st st2.
Proof. exact (fun H => H). Qed.

Lemma reach_star_caps c st st1 :
  reach ci (Star c) st st1 -> caps st1 = caps st.
Proof. intros H. now destruct (run_of_inv _ _ _ H). Qed.

Lemma reach_lit_caps p st st1 :
  reach ci (Lit p) st st1 -> caps st1 = caps st.
Proof. apply lit_match_caps. Qed.

Lemma reach_boundary st st1 : reach ci WordBoundary st st1 -> st1 = st.
Proof. now intros (_ & ->). Qed.

End Matcher.

Lemma search_sound (re : RegExp) s :
  forall pv m,
    search re pv s = Some m ->
    exists st0 st,
      caps st0 = []
      /\ reach (ignoreCase re) (pattern re) st0 st
      /\ m = (0, consumed st0 st) :: caps st.
Proof.
  induction s as [|ch s IH]; intros pv m H; cbn [search] in H.
  - destruct (rmatch _ _ Some _) as [st|] eqn:E; [|discriminate].
    injection H as <-.
    destruct (rmatch_sound _ _ _ _ _ E) as (st1 & Hr & [= ->]).
    eexists _, st. now repeat split.
  - destruct (rmatch _ _ Some _) as [st|] eqn:E.
    + injection H as <-.
      destruct (rmatch_sound _ _ _ _ _ E) as (st1 & Hr & [= ->]).
      eexists _, st. now repeat split.
    + now apply (IH (Some ch)).
Qed.

(** [match] fails exactly on the texts in which the pattern occurs
    nowhere. *)
Lemma search_occurs (re : RegExp) s :
  forall pv, search re pv s <> None <-> occurs re pv s.
Proof.
  induction s as [|ch s IH]; intros pv; cbn [search occurs].
  - destruct (rmatch _ _ Some _) as [st|] eqn:E.
    + split; [|discriminate]. intros _. left.
      destruct (rmatch_sound _ _ _ _ _ E) as (st1 & Hr & _). eauto.
    + split; [now intros []|]. intros [[st Hr]|[]].
      destruct (rmatch_complete _ _ Some _ _ st Hr eq_refl) as [res Hres].
      congruence.
  - destruct (rmatch _ _ Some _) as [st|] eqn:E.
    + split; [|discriminate]. intros _. left.
      destruct (rmatch_sound _ _ _ _ _ E) as (st1 & Hr & _). eauto.
    + rewrite IH. split; [now right|]. intros [[st Hr]|Ho]; [|exact Ho].
      destruct (rmatch_complete _ _ Some _ _ st Hr eq_refl) as [res Hres].
      congruence.
Qed.

Lemma unmatched_occurs text re : unmatched text re <-> ~ occurs re None text.
Proof.
  unfold unmatched, String_match. rewrite <- search_occurs.
  destruct (search re None text); split; intros; try congruence.
  now elim H.
Qed.

(** Takes [reach] apart along a concrete pattern and collects what each
    part did to the captures. *)
Ltac reach_inv :=
  repeat match goal with
  | H : reach _ (Cat _ _) _ _ |- _ =>
      apply reach_cat in H; destruct H as (? & ? & H)
  | H : reach _ (Group _ _) _ _ |- _ =>
      apply reach_group in H; destruct H as (? & H & ->)
  | H : reach _ (Plus _) _ _ |- _ =>
      apply plus_inv in H; destruct H as (? & ? & ? & ? & ?)
  | H : reach _ (Set1 _) _ _ |- _ =>
      apply set1_inv in H; destruct H as (? & ? & ? & ?)
  | H : reach _ (Star _) _ _ |- _ => apply reach_star_caps in H
  | H : reach _ (Lit _) _ _ |- _ => apply reach_lit_caps in H
  | H : reach _ WordBoundary _ _ |- _ => apply reach_boundary in H; subst
  end.

(** Reads a capture off the chain of [caps] equations. *)
Ltac cap_chain :=
  cbn [cap set_cap caps Nat.eqb];
  repeat match goal with
         | H : caps _ = _ |- _ => rewrite H; clear H
         end;
  cbn [cap set_cap caps Nat.eqb];
  try (f_equal; assumption); try reflexivity.

Section Captures.

Lemma labelled_capture hay label unit m :
  String_match hay (labelled label unit) = Some m ->
  exists w, cap m 1 = Some w /\ number_text w.
Proof.
  intros H. apply search_sound in H.
  destruct H as (st0 & st & H0 & Hr & ->).
  cbn [ignoreCase pattern labelled] in Hr. reach_inv.
  eexists; split; [|split; eassumption].
  cap_chain.
Qed.


Lemma worded_capture hay label m :
  String_match hay (worded label) = Some m -> exists w, cap m 1 = Some w.
Proof.
  intros H. apply search_sound in H.
  destruct H as (st0 & st & H0 & Hr & ->).
  cbn [ignoreCase pattern worded] in Hr. reach_inv.
  eexists. cap_chain.
Qed.

Lemma pressure_assigned_capture hay m :
  String_match hay re_pressure_assigned = Some m -> exists w, cap m 1 = Some w.
Proof.
  intros H. apply search_sound in H.
  destruct H as (st0 & st & H0 & Hr & ->).
  cbn [ignoreCase pattern re_pressure_assigned] in Hr. reach_inv.
  eexists. cap_chain.
Qed.

Lemma swap_used_capture hay m :
  String_match hay re_swap_used = Some m ->
  exists w u,
    cap m 1 = Some w /\ cap m 2 = Some (String u "")
    /\ number_text w
    /\ class_matches true [CChar "M"; CChar "G"] u = true.
Proof.
  intros H. apply search_sound in H.
  destruct H as (st0 & st & H0 & Hr & ->).
  cbn [ignoreCase pattern re_swap_used] in Hr. reach_inv.
  do 2 eexists; split; [|split; [|split; [split; eassumption | eassumption]]].
  - cap_chain.
  - cap_chain.
Qed.

End Captures.

(* ===================================================================== *)
(** ** Numbers read from a capture                                        *)
(* ===================================================================== *)

Section Numbers.

Ltac each_char ch :=
  destruct ch as [[] [] [] [] [] [] [] []]; vm_compute; try discriminate; auto.

Lemma digits_dot_char ch :
  class_matches true digits_dot ch = true -> dd (code ch) = true.
Proof. each_char ch. Qed.

Lemma unit_char ch :
  class_matches true [CChar "M"; CChar "G"] ch = true ->
  (ch = "M" \/ ch = "m")%char /\ ustring_eqb (toUpperCase (String ch "")) (units "G") = false
  \/ (ch = "G" \/ ch = "g")%char /\ ustring_eqb (toUpperCase (String ch "")) (units "G") = true.
Proof. each_char ch. Qed.

Lemma binary_round_aux_sign s m e l :
  match binary_round_aux prec emax s m e l with
  | S754_zero s' | S754_infinity s' | S754_finite s' _ _ => s' = s
  | S754_nan => True
  end.
Proof.
  unfold binary_round_aux.
  destruct (shr_fexp prec emax m e l) as [mrs e'].
  destruct (shr_fexp prec emax _ e' loc_Exact) as [mrs' e''].
  destruct (shr_m mrs'); [reflexivity | | exact I].
  now destruct (Z.leb e'' (Z.sub emax prec)).
Qed.

Lemma round_ratio_sign a b :
  not_negative (round_ratio false a b) = true \/ round_ratio false a b = NaN.
Proof.
  unfold round_ratio, raw_integer.
  destruct a as [|p|p], b as [|q|q]; cbn [SFdiv xorb not_negative negb]; auto.
  destruct (SFdiv_core_binary prec emax (Zpos p) 0 (Zpos q) 0) as [[mz ez] lz].
  pose proof (binary_round_aux_sign false mz ez lz) as H.
  destruct (binary_round_aux prec emax false mz ez lz); cbn; subst; auto.
Qed.

Lemma scale10_sign sig e :
  not_negative (scale10 false sig e) = true \/ scale10 false sig e = NaN.
Proof. unfold scale10. destruct (0 <=? e)%Z; apply round_ratio_sign. Qed.

Lemma decimal_value_sign ip fp ex :
  not_negative (decimal_value false ip fp ex) = true
  \/ decimal_value false ip fp ex = NaN.
Proof.
  unfold decimal_value.
  destruct (ip ++ fp)%list; [now right|].
  destruct (digits_from 10 0 _); [|now right].
  destruct (exponent_part ex); [apply scale10_sign | now right].
Qed.

Lemma unsigned_decimal_sign l :
  not_negative (unsigned_decimal false l) = true
  \/ unsigned_decimal false l = NaN.
Proof.
  unfold unsigned_decimal.
  destruct (ustring_eqb l (units "Infinity")); [now left|].
  destruct (span is_digit_unit l) as [ip r1].
  destruct r1 as [|u r2].
  - destruct ip; [now right | apply decimal_value_sign].
  - destruct (N.eq_dec u 46) as [->|Hu].
    + destruct (span is_digit_unit r2). apply decimal_value_sign.
    + destruct u as [|p]; [|do 6 (try destruct p as [p|p|])];
        first [ now elim Hu
              | destruct ip; [now right | apply decimal_value_sign] ].
Qed.

Lemma dd_cases u :
  dd u = true ->
  (u = 46 \/ u = 48 \/ u = 49 \/ u = 50 \/ u = 51 \/ u = 52 \/ u = 53
   \/ u = 54 \/ u = 55 \/ u = 56 \/ u = 57)%N.
Proof.
  unfold dd, is_digit_unit, between.
  rewrite orb_true_iff, andb_true_iff, !N.leb_le, N.eqb_eq. lia.
Qed.

Lemma dd_not_white u : dd u = true -> is_white_unit u = false.
Proof.
  intros H. apply dd_cases in H.
  repeat (destruct H as [->|H]; [reflexivity|]). now subst.
Qed.

Lemma drop_while_head {A} (p : A -> bool) l :
  match l with [] => True | x :: _ => p x = false end -> drop_while p l = l.
Proof. destruct l as [|x l]; cbn; [easy|]. now intros ->. Qed.

Lemma trim_id l : Forall (fun u => is_white_unit u = false) l -> trim l = l.
Proof.
  intros H. unfold trim.
  rewrite (drop_while_head _ l) by (destruct H; auto).
  apply Forall_rev in H.
  rewrite (drop_while_head _ (rev l)) by (destruct H; auto).
  apply rev_involutive.
Qed.

Lemma StringToNumber_dd l :
  l <> [] -> Forall (fun u => dd u = true) l ->
  StringToNumber l = unsigned_decimal false l.
Proof.
  intros Hne Hall. unfold StringToNumber.
  rewrite trim_id
    by (eapply Forall_impl; [|exact Hall]; intros; now apply dd_not_white).
  destruct l as [|u l]; [now elim Hne|].
  inversion Hall as [|? ? Hu Hl]; subst.
  apply dd_cases in Hu.
  repeat (destruct Hu as [->|Hu]; [try reflexivity|]); subst; try reflexivity.
  destruct l as [|v l]; [reflexivity|].
  inversion Hl as [|? ? Hv _]; subst.
  apply dd_cases in Hv.
  repeat (destruct Hv as [->|Hv]; [reflexivity|]). now subst.
Qed.

Lemma units_number_text w :
  number_text w -> units w <> [] /\ Forall (fun u => dd u = true) (units w).
Proof.
  intros [Hne Hall]. split.
  - destruct w; [now elim Hne | discriminate].
  - clear Hne. induction w as [|ch w IH]; [constructor|].
    cbn in Hall. apply andb_true_iff in Hall as [Hc Hw].
    constructor; [|now apply IH].
    apply digits_dot_char in Hc. exact Hc.
Qed.

(** What [Number] makes of a captured run of digits and dots: never a
    negative value. *)
Lemma Number_text w :
  number_text w ->
  not_negative (Number (Some w)) = true \/ Number (Some w) = NaN.
Proof.
  intros H. destruct (units_number_text _ H) as [Hne Hall].
  cbn [Number]. rewrite StringToNumber_dd by assumption.
  apply unsigned_decimal_sign.
Qed.

Lemma zero_le x :
  isFinite x = true -> not_negative x = true -> le (num 0) x = true.
Proof. destruct x as [s|s| |s m e]; try discriminate; now destruct s. Qed.

Lemma matchNumber_finite hay re n :
  matchNumber hay re = Some n -> isFinite n = true.
Proof.
  unfold matchNumber. destruct (String_match hay re); [|discriminate].
  destruct (isFinite (Number _)) eqn:E; [|discriminate]. now intros [= <-].
Qed.

Lemma matchNumber_labelled hay label unit n :
  matchNumber hay (labelled label unit) = Some n -> le (num 0) n = true.
Proof.
  intros H. pose proof (matchNumber_finite _ _ _ H) as Hf.
  unfold matchNumber in H.
  destruct (String_match _ _) as [m|] eqn:E; [|discriminate].
  destruct (labelled_capture _ _ _ _ E) as (w & Hc & Hw).
  cbv zeta in H. rewrite Hc in H.
  destruct (Number_text _ Hw) as [Hs|Hn].
  - destruct (isFinite (Number (Some w))); [|discriminate].
    injection H as <-. now apply zero_le.
  - rewrite Hn in H. discriminate.
Qed.

End Numbers.

(* ===================================================================== *)
(** ** The swap parser                                                    *)
(* ===================================================================== *)

Section Swap.

Lemma parseSwapUsage_match s m :
  String_match s re_swap_used = Some m ->
  exists w u,
    cap m 1 = Some w /\ cap m 2 = Some (String u "")
    /\ number_text w /\ is_swap_unit u
    /\ parseSwapUsage s =
       Ok (if isFinite (Number (Some w))
           then Some (gigabytes (Number (Some w)) u) else None).
Proof.
  intros H. destruct (swap_used_capture _ _ H) as (w & u & H1 & H2 & Hw & Hu).
  exists w, u. do 3 (split; [assumption|]). split.
  - unfold is_swap_unit. destruct (unit_char _ Hu) as [[[->| ->] _]|[[->| ->] _]]; auto.
  - unfold parseSwapUsage. rewrite H, H1, H2.
    destruct (isFinite (Number (Some w))); cbn [negb]; [|reflexivity].
    unfold gigabytes.
    destruct (unit_char _ Hu) as [[[->| ->] ->]|[[->| ->] ->]]; reflexivity.
Qed.

Lemma parseSwapUsage_total s : exists v, parseSwapUsage s = Ok v.
Proof.
  destruct (String_match s re_swap_used) as [m|] eqn:E.
  - destruct (parseSwapUsage_match _ _ E) as (w & u & _ & _ & _ & _ & ->).
    eauto.
  - unfold parseSwapUsage. rewrite E. eauto.
Qed.

(** C4, as amended.  The swap parser looks for the leftmost
    [used = <value><unit>] token.  Without one it returns null.  With one
    it returns the token's value in gigabytes (kept for G, divided by
    1024 for M) when that value is a finite number, and null when it is
    not.  "used = 2.50G" gives 2.5, "used = 512M" gives 0.5 and a text
    without the token gives null. *)
Theorem parseSwapUsage_first_token (s : string) :
  match String_match s re_swap_used with
  | None => parseSwapUsage s = Ok None
  | Some m =>
      exists w u,
        cap m 1 = Some w /\ cap m 2 = Some (String u "")
        /\ number_text w /\ is_swap_unit u
        /\ parseSwapUsage s =
           Ok (if isFinite (Number (Some w))
               then Some (gigabytes (Number (Some w)) u) else None)
  end
  /\ parseSwapUsage "used = 2.50G" = Ok (Some (round_ratio false 5 2))
  /\ parseSwapUsage "used = 512M" = Ok (Some (round_ratio false 1 2))
  /\ parseSwapUsage "vm.swapusage: total = 0.00M" = Ok None.
Proof.
  split; [|now vm_compute].
  destruct (String_match s re_swap_used) as [m|] eqn:E.
  - now apply parseSwapUsage_match.
  - unfold parseSwapUsage. now rewrite E.
Qed.

(** C4, the claim as written fails: the leftmost token of this text
    carries the value text "1.2.3", the parser returns null, and the
    well-formed token behind it (which alone gives 5) is never read. *)
Lemma parseSwapUsage_malformed_first_token :
  let s := "used = 1.2.3G used = 5G" in
  (exists m, String_match s re_swap_used = Some m
             /\ cap m 0 = Some "used = 1.2.3G"
             /\ cap m 1 = Some "1.2.3" /\ cap m 2 = Some "G")
  /\ parseSwapUsage s = Ok None
  /\ parseSwapUsage "used = 5G" = Ok (Some (num 5)).
Proof.
  cbv zeta. split; [|now vm_compute].
  eexists. split; [now vm_compute|]. now vm_compute.
Qed.

End Swap.

(* ===================================================================== *)
(** ** The thermal limit and pressure parser                              *)
(* ===================================================================== *)

Section PmsetTherm.

Lemma first_match_capture out a :
  first_match (String_match out re_pressure_assigned)
              (String_match out re_pressure_colon)
              (String_match out re_pressure_level) = Some a ->
  exists w, cap a 1 = Some w.
Proof.
  unfold first_match.
  destruct (String_match out re_pressure_assigned) as [m1|] eqn:E1.
  - intros [= <-]. eapply pressure_assigned_capture, E1.
  - destruct (String_match out re_pressure_colon) as [m2|] eqn:E2.
    + intros [= <-]. eapply worded_capture, E2.
    + intros E3. eapply worded_capture, E3.
Qed.

(** The parser returns, and its three fields are these. *)
Lemma parsePmsetTherm_fields out :
  exists p0,
    parsePmsetTherm out =
      Ok {| cpuLim := nullish (matchNumber out re_cpu_limit)
                        (if includes out "No CPU power status has been recorded"
                         then Some (num 100) else None);
            gpuLim := match matchNumber out re_gpu_limit with
                      | Some x => x
                      | None => num 100
                      end;
            pmset_pressure :=
              if is_unknown p0
                 && (includes out "No thermal warning level has been recorded"
                     || includes out "Nominal")
              then nominal else p0 |}
    /\ (no_pressure_phrase out -> p0 = pressure_unknown).
Proof.
  unfold parsePmsetTherm, no_pressure_phrase, unmatched.
  destruct (first_match _ _ _) as [a|] eqn:E.
  - destruct (first_match_capture _ _ E) as [w ->]. cbn [bind].
    eexists; split; [reflexivity|].
    intros (H1 & H2 & H3). rewrite H1, H2, H3 in E. discriminate.
  - cbn [bind]. eexists; split; [reflexivity|]. reflexivity.
Qed.

Lemma parsePmsetTherm_total out : exists p, parsePmsetTherm out = Ok p.
Proof. destruct (parsePmsetTherm_fields out) as (p0 & -> & _). eauto. Qed.

Lemma matchNumber_unmatched text re :
  unmatched text re -> matchNumber text re = None.
Proof. unfold unmatched, matchNumber. now intros ->. Qed.

(** C6.  The thermal parser returns, and: a text without a CPU
    speed-limit match that says no CPU power status has been recorded
    has CPU limit 100; a text without a GPU speed-limit match has GPU
    limit 100; a text with none of the three pressure phrasings that
    says no thermal warning level has been recorded has pressure
    nominal. *)
Theorem parsePmsetTherm_defaults (out : string) :
  exists p,
    parsePmsetTherm out = Ok p
    /\ (unmatched out re_cpu_limit ->
        includes out "No CPU power status has been recorded" = true ->
        cpuLim p = Some (num 100))
    /\ (unmatched out re_gpu_limit -> gpuLim p = num 100)
    /\ (no_pressure_phrase out ->
        includes out "No thermal warning level has been recorded" = true ->
        pmset_pressure p = nominal).
Proof.
  destruct (parsePmsetTherm_fields out) as (p0 & -> & Hp0).
  eexists; split; [reflexivity|]. cbn [cpuLim gpuLim pmset_pressure].
  split; [|split].
  - intros Hc Hi. now rewrite (matchNumber_unmatched _ _ Hc), Hi.
  - intros Hg. now rewrite (matchNumber_unmatched _ _ Hg).
  - intros Hn Hi. now rewrite (Hp0 Hn), Hi.
Qed.

Lemma parsePmsetTherm_defaults_quiet :
  exists p,
    parsePmsetTherm pmset_quiet = Ok p
    /\ cpuLim p = Some (num 100) /\ gpuLim p = num 100
    /\ pmset_pressure p = nominal.
Proof.
  destruct (parsePmsetTherm_defaults pmset_quiet) as (p & Hp & H1 & H2 & H3).
  exists p. split; [exact Hp|]. split; [|split].
  - apply H1; reflexivity.
  - apply H2; reflexivity.
  - apply H3; [repeat split|]; reflexivity.
Defined.

End PmsetTherm.

(* ===================================================================== *)
(** ** The probes                                                         *)
(* ===================================================================== *)

Section Probes.

Lemma getMemory_returns mp sw :
  exists v,
    parseSwapUsage (combined (run sw)) = Ok v
    /\ exists rw,
         getMemory mp sw =
           Ok {| stats := {| pressure := parseMemoryPressure (combined (run mp));
                             swap_gb := v |};
                 raw := rw;
                 probe_ok := ok (run mp) && ok (run sw) |}.
Proof.
  destruct (parseSwapUsage_total (combined (run sw))) as [v Hv].
  exists v; split; [exact Hv|].
  unfold getMemory. rewrite Hv. cbn [bind]. eauto.
Qed.

(** The temperatures after the fallback rule. *)
Lemma getThermals_returns pm smc m4 :
  let t0 := parsePowermetricsSMCTemps (combined (run smc)) in
  let t := if is_null (cpu t0) && is_null (gpu t0) && is_null (soc t0)
              && ok (run m4)
           then sensor_fallback (combined (run m4)) t0 else t0 in
  exists p,
    parsePmsetTherm (combined (run pm) ++ nl ++ combined (run smc)) = Ok p
    /\ exists rw,
         getThermals pm smc m4 =
           Ok {| stats :=
                   {| cpu_speed_limit_pct := cpuLim p;
                      gpu_speed_limit_pct := Some (gpuLim p);
                      thermal_pressure := pmset_pressure p;
                      cpu_temp_c := cpu t;
                      gpu_temp_c := gpu t;
                      soc_temp_c := soc t;
                      source := {| pmset_ok := ok (run pm);
                                   powermetrics_smc_ok := ok (run smc);
                                   m4_temp_ok := ok (run m4) |} |};
                 raw := rw;
                 probe_ok := ok (run pm) || ok (run smc) || ok (run m4) |}.
Proof.
  intros t0 t.
  destruct (parsePmsetTherm_total
              (combined (run pm) ++ nl ++ combined (run smc))) as [p Hp].
  exists p; split; [exact Hp|].
  unfold getThermals. rewrite Hp. cbn [bind]. fold t0. fold t.
  assert (Hn : forall a : option number, nullish a None = a) by now intros [].
  rewrite !Hn. eauto.
Qed.

Lemma ok_run p : ok (run p) = true <-> exit_code p = 0%Z.
Proof. cbn. apply Z.eqb_eq. Qed.

(** C7.  The memory probe returns with [ok] the conjunction of the exit
    statuses of its two commands, the thermal probe with [ok] the
    disjunction of the exit statuses of its three commands. *)
Theorem probe_ok_flags (mp sw pm smc m4 : process) :
  (exists r,
     getMemory mp sw = Ok r
     /\ probe_ok r = ok (run mp) && ok (run sw)
     /\ (probe_ok r = true <-> exit_code mp = 0%Z /\ exit_code sw = 0%Z))
  /\ (exists r,
        getThermals pm smc m4 = Ok r
        /\ probe_ok r = ok (run pm) || ok (run smc) || ok (run m4)
        /\ (probe_ok r = true
            <-> exit_code pm = 0%Z \/ exit_code smc = 0%Z \/ exit_code m4 = 0%Z)).
Proof.
  split.
  - destruct (getMemory_returns mp sw) as (v & _ & rw & ->).
    eexists; split; [reflexivity|]. cbn [probe_ok]. split; [reflexivity|].
    now rewrite andb_true_iff, !ok_run.
  - destruct (getThermals_returns pm smc m4) as (p & _ & rw & ->).
    eexists; split; [reflexivity|]. cbn [probe_ok]. split; [reflexivity|].
    rewrite !orb_true_iff, !ok_run. tauto.
Qed.

(** C10.  The thermal probe always returns, and the GPU speed limit of
    its stats is never null: it is a finite number, the one [matchNumber]
    finds for the GPU_Speed_Limit pattern, or 100 when it finds none (no
    match, or a match whose text is not a finite number). *)
Theorem gpu_speed_limit_never_null (pm smc m4 : process) :
  let out := combined (run pm) ++ nl ++ combined (run smc) in
  exists r x,
    getThermals pm smc m4 = Ok r
    /\ gpu_speed_limit_pct (stats r) = Some x
    /\ isFinite x = true
    /\ x = match matchNumber out re_gpu_limit with
           | Some v => v
           | None => num 100
           end
    /\ match String_match out re_gpu_limit with
       | None => x = num 100
       | Some m => x = if isFinite (Number (cap m 1)) then Number (cap m 1)
                       else num 100
       end.
Proof.
  intros out.
  destruct (getThermals_returns pm smc m4) as (p & Hp & rw & ->).
  fold out in Hp.
  destruct (parsePmsetTherm_fields out) as (p0 & Hf & _).
  rewrite Hp in Hf. injection Hf as ->.
  eexists _, _; split; [reflexivity|]. cbn [stats gpu_speed_limit_pct gpuLim].
  split; [reflexivity|].
  assert (Hfin : isFinite match matchNumber out re_gpu_limit with
                          | Some v => v
                          | None => num 100
                          end = true).
  { destruct (matchNumber out re_gpu_limit) as [v|] eqn:E; [|reflexivity].
    exact (matchNumber_finite _ _ _ E). }
  split; [exact Hfin|]. split; [reflexivity|].
  unfold matchNumber.
  destruct (String_match out re_gpu_limit) as [m|]; [|reflexivity].
  cbv zeta. now destruct (isFinite (Number (cap m 1))).
Qed.

End Probes.

(* ===================================================================== *)
(** ** Math.max                                                           *)
(* ===================================================================== *)

Section MathMax.

Ltac compare_cases :=
  repeat match goal with
  | |- context [Z.compare ?a ?b] => destruct (Z.compare_spec a b)
  | |- context [Pos.compare_cont Eq ?a ?b] =>
      change (Pos.compare_cont Eq a b) with (Pos.compare a b);
      destruct (Pos.compare_spec a b)
  end.

Lemma le_rank x y :
  x <> NaN -> y <> NaN -> (le x y = true <-> rank_le (rank x) (rank y)).
Proof.
  intros Hx Hy. unfold le, SFleb, rank_le.
  destruct x as [s1|s1| |s1 m1 e1]; try (now elim Hx);
    destruct y as [s2|s2| |s2 m2 e2]; try (now elim Hy);
    try destruct s1; try destruct s2;
    cbn [SFcompare rank CompOpp]; compare_cases; cbn [CompOpp];
    split; intros; try discriminate; try reflexivity; lia.
Qed.

Lemma lt_rank x y :
  x <> NaN -> y <> NaN -> (lt x y = true <-> rank_lt (rank x) (rank y)).
Proof.
  intros Hx Hy. unfold lt, SFltb, rank_lt.
  destruct x as [s1|s1| |s1 m1 e1]; try (now elim Hx);
    destruct y as [s2|s2| |s2 m2 e2]; try (now elim Hy);
    try destruct s1; try destruct s2;
    cbn [SFcompare rank CompOpp]; compare_cases; cbn [CompOpp];
    split; intros; try discriminate; try reflexivity; lia.
Qed.

Lemma max_step_spec h x :
  h <> NaN -> x <> NaN ->
  (max_step h x = h \/ max_step h x = x)
  /\ max_step h x <> NaN
  /\ le h (max_step h x) = true /\ le x (max_step h x) = true.
Proof.
  intros Hh Hx.
  assert (Hgen : forall m, m = (if gt x h then x else h) ->
            (m = h \/ m = x) /\ m <> NaN /\ le h m = true /\ le x m = true).
  { intros m ->. unfold gt. pose proof (lt_rank h x Hh Hx) as Hlt.
    destruct (SFltb h x) eqn:E; fold (lt h x) in E; rewrite E in Hlt.
    - repeat split; auto; apply le_rank; auto;
        destruct Hlt as [Hlt _]; specialize (Hlt eq_refl);
        unfold rank_lt, rank_le in *;
        destruct (rank h) as [[? ?] ?], (rank x) as [[? ?] ?]; lia.
    - repeat split; auto; apply le_rank; auto;
        assert (Hn : ~ rank_lt (rank h) (rank x))
          by (intros Hr; apply Hlt in Hr; discriminate);
        unfold rank_lt, rank_le in *;
        destruct (rank h) as [[? ?] ?], (rank x) as [[? ?] ?]; lia. }
  destruct h as [[]|sh| |sh mh eh]; try (now elim Hh);
    destruct x as [[]|sx| |sx mx ex]; try (now elim Hx);
    try (apply Hgen; reflexivity).
  cbn. repeat split; auto; discriminate.
Qed.

Lemma le_trans x y z :
  x <> NaN -> y <> NaN -> z <> NaN ->
  le x y = true -> le y z = true -> le x z = true.
Proof.
  intros Hx Hy Hz Hxy Hyz.
  apply le_rank in Hxy; auto. apply le_rank in Hyz; auto. apply le_rank; auto.
  unfold rank_le in *.
  destruct (rank x) as [[? ?] ?], (rank y) as [[? ?] ?], (rank z) as [[? ?] ?].
  lia.
Qed.

Lemma fold_max xs :
  forall h, h <> NaN -> Forall (fun x => x <> NaN) xs ->
  let m := fold_left max_step xs h in
  (m = h \/ In m xs) /\ m <> NaN /\ le h m = true
  /\ Forall (fun x => le x m = true) xs.
Proof.
  induction xs as [|x xs IH]; intros h Hh Hall; cbn [fold_left].
  - repeat split; auto.
    apply le_rank; auto. unfold rank_le. destruct (rank h) as [[? ?] ?]. lia.
  - inversion Hall as [|? ? Hx Hxs]; subst.
    destruct (max_step_spec h x Hh Hx) as (Hor & Hn & Hle1 & Hle2).
    destruct (IH _ Hn Hxs) as (Hin & Hm & Hle & Hfor).
    repeat split.
    + destruct Hin as [->|Hin]; [|right; now right].
      destruct Hor as [->| ->]; [now left | right; now left].
    + exact Hm.
    + apply (le_trans _ (max_step h x)); assumption.
    + constructor; [|exact Hfor].
      apply (le_trans _ (max_step h x)); assumption.
Qed.

(** On Numbers other than NaN, [Math.max] returns one of its arguments,
    and none of them is above it. *)
Lemma Math_max_greatest xs :
  xs <> [] -> Forall (fun x => x <> NaN) xs ->
  In (Math_max xs) xs /\ Forall (fun x => le x (Math_max xs) = true) xs.
Proof.
  intros Hne Hall.
  destruct (fold_max xs neg_Infinity) as (Hin & Hm & _ & Hfor);
    [discriminate | exact Hall |].
  fold (Math_max xs) in *. split; [|exact Hfor].
  destruct Hin as [Heq|Hin]; [|exact Hin].
  destruct xs as [|x xs]; [now elim Hne|].
  inversion Hfor as [|? ? Hx _]; subst. inversion Hall as [|? ? Hxn _]; subst.
  rewrite Heq in Hx. left.
  rewrite Heq. now destruct x as [s|[]| |[] m e].
Qed.

End MathMax.

(* ===================================================================== *)
(** ** Numbers of a JSON text                                             *)
(* ===================================================================== *)

Section ParsedNumbers.

Local Open Scope Z_scope.

Lemma shr_1_nonneg mrs : 0 <= shr_m mrs -> 0 <= shr_m (shr_1 mrs).
Proof.
  destruct mrs as [m r t]; cbn [shr_m shr_1].
  destruct m as [|[p|p|]|p]; cbn; lia.
Qed.

Lemma iter_shr_1_nonneg p :
  forall mrs, 0 <= shr_m mrs -> 0 <= shr_m (iter_pos shr_1 p mrs).
Proof.
  induction p as [p IH|p IH|]; intros mrs H; cbn [iter_pos].
  - apply IH, IH, shr_1_nonneg, H.
  - apply IH, IH, H.
  - apply shr_1_nonneg, H.
Qed.

Lemma shr_fexp_nonneg m e l :
  0 <= m -> 0 <= shr_m (fst (shr_fexp prec emax m e l)).
Proof.
  intros H. unfold shr_fexp, shr.
  assert (H0 : 0 <= shr_m (shr_record_of_loc m l))
    by (destruct l as [|[]]; exact H).
  destruct (fexp prec emax (Zdigits2 m + e) - e); cbn [fst]; auto.
  now apply iter_shr_1_nonneg.
Qed.

Lemma binary_round_aux_not_nan s m e l :
  0 <= m -> binary_round_aux prec emax s m e l <> NaN.
Proof.
  intros H. unfold binary_round_aux.
  pose proof (shr_fexp_nonneg m e l H) as H1.
  destruct (shr_fexp prec emax m e l) as [mrs e']. cbn [fst] in H1.
  set (m1 := round_nearest_even (shr_m mrs) (loc_of_shr_record mrs)).
  assert (Hm1 : 0 <= m1).
  { subst m1. unfold round_nearest_even.
    destruct (loc_of_shr_record mrs) as [|[]]; try lia.
    destruct (Z.even (shr_m mrs)); lia. }
  pose proof (shr_fexp_nonneg m1 e' loc_Exact Hm1) as H2.
  destruct (shr_fexp prec emax m1 e' loc_Exact) as [mrs' e'']. cbn [fst] in H2.
  destruct (shr_m mrs') as [|q|q]; [discriminate| |lia].
  destruct (e'' <=? emax - prec); discriminate.
Qed.

Lemma round_ratio_not_nan neg a b :
  0 <= a -> 0 < b -> round_ratio neg a b <> NaN.
Proof.
  intros Ha Hb. unfold round_ratio, raw_integer.
  destruct a as [|p|p]; [|
  |lia]; (destruct b as [|q|q]; [lia| |lia]); cbn [SFdiv]; [discriminate|].
  unfold SFdiv_core_binary.
  set (e' := Z.min _ _). set (m' := match 0 - 0 - e' with
                                     | Z0 => Zpos p
                                     | Zpos _ => Z.shiftl (Zpos p) (0 - 0 - e')
                                     | Zneg _ => 0
                                     end).
  assert (Hm' : 0 <= m').
  { subst m'. destruct (0 - 0 - e') eqn:E; try lia.
    apply Z.shiftl_nonneg. lia. }
  pose proof (Z.div_pos m' (Zpos q) Hm' eq_refl) as Hq.
  unfold Z.div in Hq.
  destruct (Z.div_eucl m' (Zpos q)) as [qt rm]. cbn [fst] in Hq.
  now apply binary_round_aux_not_nan.
Qed.

Lemma digits_from_nonneg l :
  forall acc z, 0 <= acc -> digits_from 10 acc l = Some z -> 0 <= z.
Proof.
  induction l as [|u l IH]; intros acc z Ha H; cbn [digits_from] in H.
  - injection H as <-. exact Ha.
  - destruct (digit_of 10 u) as [d|] eqn:Ed; [|discriminate].
    apply (IH _ _) in H; [exact H|].
    assert (0 <= d); [|lia].
    unfold digit_of in Ed.
    destruct (between 48 57 u) eqn:E1.
    + unfold between in E1. apply andb_true_iff in E1 as [E1 _].
      apply N.leb_le in E1.
      destruct (Z.of_N u - 48 <? 10); [injection Ed as <-; lia | discriminate].
    + destruct (between 97 102 u) eqn:E2.
      * unfold between in E2. apply andb_true_iff in E2 as [E2 _].
        apply N.leb_le in E2.
        destruct (Z.of_N u - 87 <? 10); [injection Ed as <-; lia | discriminate].
      * destruct (between 65 70 u) eqn:E3; [|discriminate].
        unfold between in E3. apply andb_true_iff in E3 as [E3 _].
        apply N.leb_le in E3.
        destruct (Z.of_N u - 55 <? 10); [injection Ed as <-; lia | discriminate].
Qed.

Lemma scale10_not_nan neg sig e : 0 <= sig -> scale10 neg sig e <> NaN.
Proof.
  intros H. unfold scale10. destruct (0 <=? e) eqn:E.
  - apply Z.leb_le in E. apply round_ratio_not_nan; [|lia].
    apply Z.mul_nonneg_nonneg; [exact H|]. apply Z.pow_nonneg. lia.
  - apply Z.leb_gt in E. apply round_ratio_not_nan; [exact H|].
    apply Z.pow_pos_nonneg; lia.
Qed.

Lemma json_number_plain s v r : json_number s = POk v r -> plain_number v.
Proof.
  unfold json_number.
  destruct (match s with
            | String c s' => if (code c =? 45)%N then (true, s') else (false, s)
            | EmptyString => (false, s)
            end) as [neg s1].
  destruct (json_int s1) as [[ip s2]|]; [|discriminate].
  destruct (json_frac s2) as [[fp s3]|]; [|discriminate].
  destruct (json_exp s3) as [[e s4]|]; [|discriminate].
  destruct (digits_from 10 0 _) as [sig|] eqn:Ed; [|discriminate].
  intros [= <- _]. cbn [plain_number].
  apply scale10_not_nan. eapply digits_from_nonneg; [|exact Ed]. lia.
Qed.

Lemma json_value_plain n s v r : json_value n s = POk v r -> plain_number v.
Proof.
  destruct n as [|f]; [discriminate|]. cbn [json_value].
  destruct s as [|c s1]; [discriminate|].
  destruct (code c =? 123)%N.
  { destruct (skip_ws s1) as [|c2 s3]; [discriminate|].
    destruct (code c2 =? 125)%N; [now intros [= <- _]|].
    destruct (json_members _ _ _ _); try discriminate. now intros [= <- _]. }
  destruct (code c =? 91)%N.
  { destruct (skip_ws s1) as [|c2 s3]; [discriminate|].
    destruct (code c2 =? 93)%N; [now intros [= <- _]|].
    destruct (json_elements _ _ _ _); try discriminate. now intros [= <- _]. }
  destruct (code c =? 34)%N.
  { destruct (json_string s1 []) as [[w r']|]; [|discriminate].
    now intros [= <- _]. }
  destruct (strip_prefix "true" _); [now intros [= <- _]|].
  destruct (strip_prefix "false" _); [now intros [= <- _]|].
  destruct (strip_prefix "null" _); [now intros [= <- _]|].
  apply json_number_plain.
Qed.

Lemma set_property_plain k v m :
  plain_number v -> Forall (fun kv => plain_number (snd kv)) m ->
  Forall (fun kv => plain_number (snd kv)) (set_property k v m).
Proof.
  intros Hv. induction 1 as [|[k' v'] m Hk Hm IH]; cbn [set_property].
  - now repeat constructor.
  - destruct (ustring_eqb k' k); constructor; auto.
Qed.

Lemma json_members_plain pv fuel :
  (forall s v r, pv s = POk v r -> plain_number v) ->
  forall acc s m r,
    Forall (fun kv => plain_number (snd kv)) acc ->
    json_members pv fuel acc s = POk m r ->
    Forall (fun kv => plain_number (snd kv)) m.
Proof.
  intros Hpv. induction fuel as [|f IH]; intros acc s m r Hacc H;
    [discriminate|].
  cbn [json_members] in H.
  destruct s as [|q s1]; [discriminate|].
  destruct (code q =? 34)%N; [|discriminate].
  destruct (json_string s1 []) as [[key r0]|]; [|discriminate].
  destruct (skip_ws r0) as [|c r1]; [discriminate|].
  destruct (code c =? 58)%N; [|discriminate].
  destruct (pv (skip_ws r1)) as [v r2| |] eqn:Ev; try discriminate.
  apply Hpv in Ev.
  destruct (skip_ws r2) as [|d r3]; [discriminate|].
  destruct (code d =? 44)%N.
  - eapply IH; [|exact H]. now apply set_property_plain.
  - destruct (code d =? 125)%N; [|discriminate].
    injection H as <- _. now apply set_property_plain.
Qed.

(** The Numbers of a parsed mapping are never NaN. *)
Lemma JSON_parse_numbers text entries xs :
  JSON_parse text = Some (JObj entries) ->
  map snd entries = map JNum xs ->
  Forall (fun x => x <> NaN) xs.
Proof.
  unfold JSON_parse. cbn [json_value].
  destruct (skip_ws text) as [|c s1]; [discriminate|].
  intros H Hv.
  assert (Hall : Forall (fun kv => plain_number (snd kv)) entries).
  { destruct (code c =? 123)%N.
    - destruct (skip_ws s1) as [|c2 s3]; [discriminate|].
      destruct (code c2 =? 125)%N.
      + destruct (skip_ws s3); [|discriminate]. injection H as <-. constructor.
      + destruct (json_members _ _ _ _) as [m r| |] eqn:Em; try discriminate.
        destruct (skip_ws r); [|discriminate]. injection H as <-.
        eapply json_members_plain; [|constructor|exact Em].
        intros s v r'. apply json_value_plain.
    - exfalso.
      destruct (code c =? 91)%N.
      { destruct (skip_ws s1) as [|c2 s3]; [discriminate|].
        destruct (code c2 =? 93)%N;
          [destruct (skip_ws s3); discriminate|].
        destruct (json_elements _ _ _ _) as [l r| |]; try discriminate.
        destruct (skip_ws r); discriminate. }
      destruct (code c =? 34)%N.
      { destruct (json_string s1 []) as [[w r']|]; [|discriminate].
        destruct (skip_ws r'); discriminate. }
      destruct (strip_prefix "true" _) as [r|];
        [destruct (skip_ws r); discriminate|].
      destruct (strip_prefix "false" _) as [r|];
        [destruct (skip_ws r); discriminate|].
      destruct (strip_prefix "null" _) as [r|];
        [destruct (skip_ws r); discriminate|].
      destruct (json_number _) as [v r| |] eqn:En; try discriminate.
      destruct (skip_ws r); [|discriminate]. injection H as ->.
      unfold json_number in En.
      repeat match type of En with
             | context [match ?x with _ => _ end] => destruct x
             end; discriminate. }
  clear H. revert xs Hv.
  induction Hall as [|[k v] m Hk Hm IH]; intros [|x xs] Hv;
    try discriminate; constructor.
  - cbn in Hv. injection Hv as -> _. exact Hk.
  - cbn in Hv. injection Hv as _ Hv. now apply IH.
Qed.

End ParsedNumbers.

(* ===================================================================== *)
(** ** The sensor-helper fallback                                         *)
(* ===================================================================== *)

Section Fallback.

Lemma ToNumbers_numbers xs : ToNumbers (map JNum xs) = Some xs.
Proof. induction xs as [|x xs IH]; cbn; [reflexivity | now rewrite IH]. Qed.

Lemma sensor_fallback_unparsed text t :
  JSON_parse text = None -> sensor_fallback text t = t.
Proof. unfold sensor_fallback. now intros ->. Qed.

Lemma sensor_fallback_numbers text t entries xs :
  JSON_parse text = Some (JObj entries) -> entries <> [] ->
  map snd entries = map JNum xs ->
  sensor_fallback text t =
    {| cpu := Some (Math_max xs); gpu := Some (Math_max xs);
       soc := Some (Math_max xs) |}.
Proof.
  intros Hp Hne Hv. unfold sensor_fallback. rewrite Hp.
  cbn [Object_values]. rewrite Hv, ToNumbers_numbers.
  destruct xs as [|x xs]; [|reflexivity].
  destruct entries; [now elim Hne | discriminate].
Qed.

(** C3, as amended.  The thermal probe returns.  The fallback applies
    exactly when the primary parse left CPU, GPU and SoC null and the
    helper exited with status zero: otherwise the three temperatures are
    those of the primary parse.  When it applies, the text parsed is the
    helper's standard output followed by its standard error: if that text
    is not JSON the three stay null, and if it is a non-empty mapping to
    numbers all three are [Math.max] of the values, which is one of the
    values and not below any of them.  The output {"a":10,"b":22.5} with
    nothing on standard error gives 22.5 three times. *)
Theorem sensor_fallback_rule (pm smc m4 : process) :
  let t0 := parsePowermetricsSMCTemps (combined (run smc)) in
  let primary_null := is_null (cpu t0) && is_null (gpu t0) && is_null (soc t0) in
  let helper_text := stdout (run m4) ++ stderr (run m4) in
  (exists r,
     getThermals pm smc m4 = Ok r
     /\ let st := stats r in
        let all_three v :=
          cpu_temp_c st = v /\ gpu_temp_c st = v /\ soc_temp_c st = v in
        (primary_null && ok (run m4) = false ->
         cpu_temp_c st = cpu t0 /\ gpu_temp_c st = gpu t0
         /\ soc_temp_c st = soc t0)
        /\ (primary_null && ok (run m4) = true ->
            JSON_parse helper_text = None -> all_three None)
        /\ (primary_null && ok (run m4) = true ->
            forall entries xs,
              JSON_parse helper_text = Some (JObj entries) ->
              entries <> [] ->
              map snd entries = map JNum xs ->
              all_three (Some (Math_max xs))
              /\ In (Math_max xs) xs
              /\ Forall (fun x => le x (Math_max xs) = true) xs))
  /\ (exists r,
        getThermals (exited 1 "" "") (exited 1 "" "") (exited 0 helper_sample "")
          = Ok r
        /\ cpu_temp_c (stats r) = Some (round_ratio false 45 2)
        /\ gpu_temp_c (stats r) = Some (round_ratio false 45 2)
        /\ soc_temp_c (stats r) = Some (round_ratio false 45 2)).
Proof.
  intros t0 primary_null helper_text. split.
  - destruct (getThermals_returns pm smc m4) as (p & _ & rw & ->).
    eexists; split; [reflexivity|].
    cbn [stats cpu_temp_c gpu_temp_c soc_temp_c].
    fold t0. fold primary_null.
    change (combined (run m4)) with helper_text.
    split; [|split].
    + now intros ->.
    + intros Hc Hp. rewrite Hc, (sensor_fallback_unparsed _ _ Hp).
      subst primary_null.
      destruct (cpu t0), (gpu t0), (soc t0); cbn in Hc; try discriminate.
      auto.
    + intros -> entries xs Hp Hne Hv.
      rewrite (sensor_fallback_numbers _ _ _ _ Hp Hne Hv). cbn [cpu gpu soc].
      split; [auto|]. apply Math_max_greatest.
      * destruct xs; [|discriminate].
        destruct entries; [now elim Hne | discriminate].
      * exact (JSON_parse_numbers _ _ _ Hp Hv).
  - clear. eexists; split; [vm_compute; reflexivity|].
    vm_compute. repeat split.
Qed.

Lemma sensor_fallback_rule_sample :
  exists r,
    getThermals (exited 1 "" "") (exited 1 "CPU die temperature: unavailable" "")
                (exited 0 helper_sample "") = Ok r
    /\ cpu_temp_c (stats r) = Some (Math_max [num 10; round_ratio false 45 2])
    /\ gpu_temp_c (stats r) = Some (Math_max [num 10; round_ratio false 45 2])
    /\ soc_temp_c (stats r) = Some (Math_max [num 10; round_ratio false 45 2])
    /\ In (Math_max [num 10; round_ratio false 45 2])
          [num 10; round_ratio false 45 2].
Proof.
  destruct (sensor_fallback_rule
              (exited 1 "" "") (exited 1 "CPU die temperature: unavailable" "")
              (exited 0 helper_sample "")) as [(r & Hr & _ & _ & H) _].
  exists r. split; [exact Hr|].
  destruct (H eq_refl
              [(units "a", JNum (num 10)); (units "b", JNum (round_ratio false 45 2))]
              [num 10; round_ratio false 45 2]) as [(H1 & H2 & H3) [H4 _]].
  - now vm_compute.
  - discriminate.
  - reflexivity.
  - repeat split; assumption.
Defined.

(** C3, the claim as written fails: the helper exited with status zero
    and its standard output is the mapping of the example, but a line on
    standard error makes the parsed text invalid and the three
    temperatures stay null. *)
Lemma sensor_fallback_reads_both_streams :
  let smc := exited 1 "" "" in
  let m4 := exited 0 helper_sample "warning: variable was never used" in
  let t0 := parsePowermetricsSMCTemps (combined (run smc)) in
  (cpu t0 = None /\ gpu t0 = None /\ soc t0 = None)
  /\ ok (run m4) = true
  /\ JSON_parse (stdout (run m4))
     = Some (JObj [(units "a", JNum (num 10));
                   (units "b", JNum (round_ratio false 45 2))])
  /\ exists r,
       getThermals (exited 1 "" "") smc m4 = Ok r
       /\ cpu_temp_c (stats r) = None /\ gpu_temp_c (stats r) = None
       /\ soc_temp_c (stats r) = None.
Proof.
  cbv zeta. split; [now vm_compute|]. split; [reflexivity|].
  split; [now vm_compute|]. eexists; split; now vm_compute.
Qed.

End Fallback.

(* ===================================================================== *)
(** ** The /metrics snapshot                                              *)
(* ===================================================================== *)

Section Snapshot.

Lemma metrics_returns q :
  exists mem therm,
    getMemory (memory_pressure q) (swapusage q) = Ok mem
    /\ getThermals (pmset_therm q) (smc_thermal q) (m4temp q) = Ok therm
    /\ source (stats therm)
       = {| pmset_ok := ok (run (pmset_therm q));
            powermetrics_smc_ok := ok (run (smc_thermal q));
            m4_temp_ok := ok (run (m4temp q)) |}
    /\ metrics q =
         Ok {| ts := now q;
               snap_gpu := stats (getGPU (gpu_power q));
               snap_memory := stats mem;
               snap_thermal := stats therm;
               snap_perf := getPerf;
               gpu_pinned := pinned_of (stats (getGPU (gpu_power q)));
               warnings := warnings_of (stats (getGPU (gpu_power q)))
                                       (stats therm) |}.
Proof.
  destruct (getMemory_returns (memory_pressure q) (swapusage q))
    as (v & _ & rw & Hm).
  destruct (getThermals_returns (pmset_therm q) (smc_thermal q) (m4temp q))
    as (p & _ & rw' & Ht).
  eexists _, _. split; [exact Hm|]. split; [exact Ht|]. split; [reflexivity|].
  unfold metrics. rewrite Hm, Ht. reflexivity.
Qed.

(** C1, as amended.  The handler returns a snapshot whose [gpu_pinned]
    is true exactly when the active and idle residencies are both
    non-null, the active one is at least 95 and the idle one lies in
    [0,2]; it is false otherwise, in particular when either is null.  No
    upper bound is put on the active residency. *)
Theorem gpu_pinned_iff (q : request) :
  exists snap,
    metrics q = Ok snap
    /\ (gpu_pinned snap = true
        <-> exists a i,
              active_pct (snap_gpu snap) = Some a
              /\ idle_pct (snap_gpu snap) = Some i
              /\ ge a (num 95) = true
              /\ le (num 0) i = true /\ le i (num 2) = true)
    /\ (active_pct (snap_gpu snap) = None \/ idle_pct (snap_gpu snap) = None
        -> gpu_pinned snap = false).
Proof.
  destruct (metrics_returns q) as (mem & therm & _ & _ & _ & ->).
  eexists; split; [reflexivity|]. cbn [gpu_pinned snap_gpu].
  unfold pinned_of.
  set (g := stats (getGPU (gpu_power q))).
  assert (Hidle : forall i, idle_pct g = Some i -> le (num 0) i = true).
  { intros i. subst g. cbn [getGPU stats parsePowermetricsGPU idle_pct].
    apply matchNumber_labelled. }
  destruct (active_pct g) as [a|], (idle_pct g) as [i|]; cbn [nullish]; split.
  - split.
    + intros H. apply andb_true_iff in H as [Ha Hi].
      exists a, i. repeat split; auto.
    + intros (a' & i' & [= <-] & [= <-] & Ha & _ & Hi). now rewrite Ha, Hi.
  - now intros [|].
  - split; [discriminate | now intros (? & ? & _ & ? & _)].
  - reflexivity.
  - split; [discriminate | now intros (? & ? & ? & _)].
  - reflexivity.
  - split; [discriminate | now intros (? & ? & ? & _)].
  - reflexivity.
Qed.

Lemma gpu_pinned_iff_sample :
  exists snap,
    metrics (request_with_gpu "GPU HW active residency: 150%") = Ok snap
    /\ gpu_pinned snap = false.
Proof.
  destruct (gpu_pinned_iff (request_with_gpu "GPU HW active residency: 150%"))
    as (snap & Hs & _ & Hnull).
  exists snap. split; [exact Hs|]. apply Hnull.
  right. vm_compute in Hs. injection Hs as <-. reflexivity.
Defined.

(** C1, the claim as written fails: an active residency of 150 is
    outside [95,100], yet with an idle residency of 1 the snapshot is
    pinned. *)
Lemma gpu_pinned_above_100 :
  exists snap,
    metrics (request_with_gpu
               "GPU HW active residency: 150%  GPU idle residency: 1%") = Ok snap
    /\ active_pct (snap_gpu snap) = Some (num 150)
    /\ idle_pct (snap_gpu snap) = Some (num 1)
    /\ le (num 150) (num 100) = false
    /\ gpu_pinned snap = true.
Proof.
  eexists. split; [vm_compute; reflexivity|].
  vm_compute. repeat split.
Qed.

Lemma when_nil b w : when b w = [] <-> b = false.
Proof. destruct b; cbn; split; intros; congruence. Qed.

(** C5.  The handler returns a snapshot whose warnings are, in this
    order, the GPU advisory when frequency and power are both null, the
    pmset advisory when that command failed, and the temperature advisory
    when SMC sampling and the sensor helper both failed.  The list has no
    duplicate, and it is empty exactly when frequency or power is
    non-null, pmset succeeded, and SMC sampling or the helper succeeded. *)
Theorem warnings_list (q : request) :
  exists snap,
    metrics q = Ok snap
    /\ let g := snap_gpu snap in
       let pmset_failed := negb (exit_code (pmset_therm q) =? 0)%Z in
       let temps_failed := negb (exit_code (smc_thermal q) =? 0)%Z
                           && negb (exit_code (m4temp q) =? 0)%Z in
       warnings snap
         = (when (is_null (freq_mhz g) && is_null (power_mw g)) warn_gpu
            ++ when pmset_failed warn_pmset
            ++ when temps_failed warn_temps)%list
       /\ NoDup (warnings snap)
       /\ (warnings snap = []
           <-> (freq_mhz g <> None \/ power_mw g <> None)
               /\ exit_code (pmset_therm q) = 0%Z
               /\ (exit_code (smc_thermal q) = 0%Z
                   \/ exit_code (m4temp q) = 0%Z)).
Proof.
  destruct (metrics_returns q) as (mem & therm & _ & _ & Hsrc & ->).
  eexists; split; [reflexivity|]. cbn [warnings snap_gpu].
  unfold warnings_of. rewrite Hsrc.
  cbn [pmset_ok powermetrics_smc_ok m4_temp_ok run ok].
  set (g := stats (getGPU (gpu_power q))).
  split; [reflexivity|]. split.
  - destruct (is_null (freq_mhz g) && is_null (power_mw g)),
      (exit_code (pmset_therm q) =? 0)%Z,
      (exit_code (smc_thermal q) =? 0)%Z, (exit_code (m4temp q) =? 0)%Z;
      cbn; repeat constructor; cbn; intuition discriminate.
  - rewrite <- !Z.eqb_eq.
    destruct (freq_mhz g), (power_mw g),
      (exit_code (pmset_therm q) =? 0)%Z,
      (exit_code (smc_thermal q) =? 0)%Z, (exit_code (m4temp q) =? 0)%Z;
      cbn; split; intros; try discriminate; try reflexivity;
      intuition (discriminate || congruence).
Qed.

End Snapshot.

(* ===================================================================== *)
(** ** Every parser returns a full structure                              *)
(* ===================================================================== *)

Section Totality.

Lemma parseMemoryPressure_unmarked text :
  forallb (fun m => negb (includes (toLowerCase text) m)) pressure_markers = true ->
  parseMemoryPressure text = unknown.
Proof.
  cbn [forallb pressure_markers]. rewrite !andb_true_iff, !negb_true_iff.
  intros (H1 & H2 & H3 & H4 & H5 & H6 & H7 & H8 & H9 & _).
  unfold parseMemoryPressure. now rewrite H1, H2, H3, H4, H5, H6, H7, H8, H9.
Qed.

(** C9, as amended.  On every text each parser returns: the swap parser
    and the thermal parser never end in an exception, and a number found
    by [matchNumber] is finite.  A field whose pattern finds nothing is
    null (or the unknown class), with the thermal parser's defaults as
    the exceptions: its GPU limit is then 100, and its CPU limit and
    pressure are null and unknown only when the text lacks the phrases
    that make them 100 and nominal. *)
Theorem parsers_total (text : string) :
  (exists v, parseSwapUsage text = Ok v)
  /\ (exists p,
        parsePmsetTherm text = Ok p
        /\ (unmatched text re_cpu_limit ->
            includes text "No CPU power status has been recorded" = false ->
            cpuLim p = None)
        /\ (unmatched text re_gpu_limit -> gpuLim p = num 100)
        /\ (no_pressure_phrase text ->
            includes text "No thermal warning level has been recorded" = false ->
            includes text "Nominal" = false ->
            pmset_pressure p = pressure_unknown))
  /\ (forall re n, matchNumber text re = Some n -> isFinite n = true)
  /\ (unmatched text re_gpu_freq -> freq_mhz (parsePowermetricsGPU text) = None)
  /\ (unmatched text re_gpu_active ->
      active_pct (parsePowermetricsGPU text) = None)
  /\ (unmatched text re_gpu_idle -> idle_pct (parsePowermetricsGPU text) = None)
  /\ (unmatched text re_gpu_power -> power_mw (parsePowermetricsGPU text) = None)
  /\ (unmatched text re_swap_used -> parseSwapUsage text = Ok None)
  /\ (forallb (fun m => negb (includes (toLowerCase text) m)) pressure_markers
        = true ->
      parseMemoryPressure text = unknown)
  /\ (unmatched text re_cpu_die -> unmatched text re_cpu_temp ->
      cpu (parsePowermetricsSMCTemps text) = None)
  /\ (unmatched text re_gpu_die -> unmatched text re_gpu_temp ->
      gpu (parsePowermetricsSMCTemps text) = None)
  /\ (unmatched text re_soc_die -> unmatched text re_SOC_die ->
      unmatched text re_pmu_die ->
      soc (parsePowermetricsSMCTemps text) = None).
Proof.
  split; [apply parseSwapUsage_total|]. split.
  { destruct (parsePmsetTherm_fields text) as (p0 & -> & Hp0).
    eexists; split; [reflexivity|]. cbn [cpuLim gpuLim pmset_pressure].
    split; [|split].
    - intros Hc Hi. now rewrite (matchNumber_unmatched _ _ Hc), Hi.
    - intros Hg. now rewrite (matchNumber_unmatched _ _ Hg).
    - intros Hn H1 H2. now rewrite (Hp0 Hn), H1, H2. }
  split; [intros re n; apply matchNumber_finite|].
  cbn [parsePowermetricsGPU parsePowermetricsSMCTemps freq_mhz active_pct
       idle_pct power_mw cpu gpu soc].
  repeat split; intros;
    repeat match goal with
           | H : unmatched _ _ |- _ =>
               rewrite (matchNumber_unmatched _ _ H); clear H
           end;
    try reflexivity.
  - unfold parseSwapUsage, unmatched in *. now rewrite H.
  - now apply parseMemoryPressure_unmarked.
Qed.

Lemma parsers_total_empty :
  parseSwapUsage "" = Ok None
  /\ parsePowermetricsGPU ""
     = {| freq_mhz := None; active_pct := None; idle_pct := None;
          power_mw := None |}
  /\ parseMemoryPressure "" = unknown
  /\ parsePowermetricsSMCTemps "" = {| cpu := None; gpu := None; soc := None |}
  /\ exists p,
       parsePmsetTherm "" = Ok p
       /\ cpuLim p = None /\ gpuLim p = num 100
       /\ pmset_pressure p = pressure_unknown.
Proof.
  destruct (parsers_total "")
    as (_ & (p & Hp & Hc & Hg & Hpr) & _ & H1 & H2 & H3 & H4 & H5 & H6
        & H7 & H8 & H9).
  split; [apply H5; reflexivity|].
  split.
  { specialize (H1 eq_refl). specialize (H2 eq_refl).
    specialize (H3 eq_refl). specialize (H4 eq_refl).
    destruct (parsePowermetricsGPU ""). cbn in *. congruence. }
  split; [apply H6; reflexivity|].
  split.
  { specialize (H7 eq_refl eq_refl). specialize (H8 eq_refl eq_refl).
    specialize (H9 eq_refl eq_refl eq_refl).
    destruct (parsePowermetricsSMCTemps ""). cbn in *. congruence. }
  exists p. split; [exact Hp|]. split; [|split].
  - apply Hc; reflexivity.
  - apply Hg; reflexivity.
  - apply Hpr; [repeat split| |]; reflexivity.
Defined.

(** C9, the claim as written fails: on the empty text the GPU
    speed-limit pattern finds nothing, and the field is 100, not null,
    in the parser's result and in the stats of the thermal probe. *)
Lemma unmatched_gpu_limit_is_100 :
  unmatched "" re_gpu_limit
  /\ parsePmsetTherm ""
     = Ok {| cpuLim := None; gpuLim := num 100;
             pmset_pressure := pressure_unknown |}
  /\ exists r,
       getThermals (exited 1 "" "") (exited 1 "" "") (exited 1 "" "") = Ok r
       /\ gpu_speed_limit_pct (stats r) = Some (num 100)
       /\ gpu_speed_limit_pct (stats r) <> None.
Proof.
  split; [reflexivity|]. split; [vm_compute; reflexivity|].
  eexists. split; [vm_compute; reflexivity|].
  vm_compute. split; [reflexivity | discriminate].
Qed.

End Totality.

(* ===================================================================== *)
(** ** The fuel of the JSON parser                                        *)
(* ===================================================================== *)

Section Fuel.

Local Open Scope nat_scope.

Lemma skip_ws_length s : length (skip_ws s) <= length s.
Proof.
  induction s as [|c s IH]; cbn; [lia|].
  destruct (is_json_ws c); cbn; lia.
Qed.

Lemma strip_prefix_length p :
  forall s r, strip_prefix p s = Some r -> length s = length p + length r.
Proof.
  induction p as [|a p IH]; intros s r H; cbn in H.
  - injection H as <-. reflexivity.
  - destruct s as [|b s]; [discriminate|].
    destruct (code a =? code b)%N; [|discriminate].
    cbn. now rewrite (IH _ _ H).
Qed.

Lemma span_digits_length s :
  forall d r, span_digits s = (d, r) ->
  length r <= length s /\ (d <> [] -> length r < length s).
Proof.
  induction s as [|c s IH]; intros d r H; cbn in H.
  - injection H as <- <-. split; [lia | now intros []].
  - destruct (is_digit_unit (code c)).
    + destruct (span_digits s) as [d' r'] eqn:E. injection H as <- <-.
      destruct (IH _ _ eq_refl). cbn. split; intros; lia.
    + injection H as <- <-. split; [lia | now intros []].
Qed.

Lemma json_string_length s :
  forall acc w r, json_string s acc = Some (w, r) -> length r < length s.
Proof.
  induction s as [s IH] using (well_founded_induction
                                 (well_founded_ltof _ length)).
  unfold ltof in IH. intros acc w r H.
  destruct s as [|c s1]; [discriminate|]. cbn [json_string] in H.
  destruct (code c =? 34)%N; [injection H as _ <-; cbn; lia|].
  destruct (code c =? 92)%N.
  - destruct s1 as [|e s2]; [discriminate|].
    destruct (code e) as [|pe]; [discriminate|].
    do 7 (try destruct pe as [pe|pe|]); try discriminate;
      try (apply IH in H; cbn in *; lia).
    destruct s2 as [|h1 [|h2 [|h3 [|h4 s6]]]]; try discriminate.
    destruct (hex4 h1 h2 h3 h4); [|discriminate].
    apply IH in H; cbn in *; lia.
  - destruct (code c <? 32)%N; [discriminate|].
    apply IH in H; cbn in *; lia.
Qed.

Lemma json_number_length s v r :
  json_number s = POk v r -> length r < length s.
Proof.
  unfold json_number.
  set (ns := match s with
             | String c s' => if (code c =? 45)%N then (true, s') else (false, s)
             | EmptyString => (false, s)
             end).
  assert (Hns : length (snd ns) <= length s).
  { subst ns. destruct s as [|c s']; cbn; [lia|].
    destruct (code c =? 45)%N; cbn; lia. }
  destruct ns as [neg s1]. cbn [snd] in Hns.
  destruct (json_int s1) as [[ip s2]|] eqn:Ei; [|discriminate].
  assert (H2 : length s2 < length s1).
  { unfold json_int in Ei. destruct s1 as [|c s']; [discriminate|].
    destruct (code c =? 48)%N; [injection Ei as _ <-; cbn; lia|].
    destruct (span_digits (String c s')) as [d r'] eqn:E.
    destruct d; [discriminate|]. injection Ei as _ <-.
    now apply (span_digits_length _ _ _ E). }
  destruct (json_frac s2) as [[fp s3]|] eqn:Ef; [|discriminate].
  assert (H3 : length s3 <= length s2).
  { unfold json_frac in Ef. destruct s2 as [|c s']; [injection Ef as _ <-; lia|].
    destruct (code c =? 46)%N; [|injection Ef as _ <-; lia].
    destruct (span_digits s') as [d r'] eqn:E.
    destruct d; [discriminate|]. injection Ef as _ <-.
    destruct (span_digits_length _ _ _ E). cbn. lia. }
  destruct (json_exp s3) as [[e s4]|] eqn:Ee; [|discriminate].
  assert (H4 : length s4 <= length s3).
  { unfold json_exp in Ee.
    assert (Hd : forall ng t z r',
              exp_digits ng t = Some (z, r') -> length r' <= length t).
    { intros ng t z r' Hz. unfold exp_digits in Hz.
      destruct (span_digits t) as [d r0] eqn:E.
      destruct d; [discriminate|]. destruct (digits_from 10 0 _); [|discriminate].
      injection Hz as _ <-. now apply (span_digits_length _ _ _ E). }
    destruct s3 as [|c s']; [injection Ee as _ <-; lia|].
    destruct ((code c =? 101)%N || (code c =? 69)%N);
      [|injection Ee as _ <-; lia].
    destruct s' as [|g s2']; [discriminate|].
    destruct (code g =? 43)%N; [apply Hd in Ee; cbn in *; lia|].
    destruct (code g =? 45)%N; apply Hd in Ee; cbn in *; lia. }
  destruct (digits_from 10 0 _); [|discriminate].
  intros [= _ <-]. lia.
Qed.

Lemma json_elements_fuel pv bound (Hpv : fuelled pv bound) fuel :
  forall acc s, length s < fuel -> length s < bound ->
    json_elements pv fuel acc s <> PFuel
    /\ forall l r, json_elements pv fuel acc s = POk l r -> length r < length s.
Proof.
  induction fuel as [|f IH]; intros acc s Hf Hb; [lia|].
  cbn [json_elements]. destruct (Hpv s Hb) as [Hnf Hlen].
  destruct (pv s) as [v r| |]; [|split; [discriminate | now intros]|now elim Hnf].
  specialize (Hlen _ _ eq_refl).
  pose proof (skip_ws_length r) as Hr.
  destruct (skip_ws r) as [|c r2]; [split; [discriminate | now intros]|].
  cbn in Hr. pose proof (skip_ws_length r2) as Hr2.
  destruct (code c =? 44)%N.
  - destruct (IH (v :: acc) (skip_ws r2)) as [H1 H2]; [lia|lia|].
    split; [exact H1|]. intros l r' H. apply H2 in H. lia.
  - destruct (code c =? 93)%N; split; try discriminate; try now intros.
    intros l r' [= _ <-]. lia.
Qed.

Lemma json_members_fuel pv bound (Hpv : fuelled pv bound) fuel :
  forall acc s, length s < fuel -> length s < bound ->
    json_members pv fuel acc s <> PFuel
    /\ forall m r, json_members pv fuel acc s = POk m r -> length r < length s.
Proof.
  induction fuel as [|f IH]; intros acc s Hf Hb; [lia|].
  cbn [json_members].
  destruct s as [|q s1]; [split; [discriminate | now intros]|].
  destruct (code q =? 34)%N; [|split; [discriminate | now intros]].
  destruct (json_string s1 []) as [[key r]|] eqn:Es;
    [|split; [discriminate | now intros]].
  apply json_string_length in Es.
  pose proof (skip_ws_length r) as Hr.
  destruct (skip_ws r) as [|c r1]; [split; [discriminate | now intros]|].
  cbn in Hr. pose proof (skip_ws_length r1) as Hr1.
  destruct (code c =? 58)%N; [|split; [discriminate | now intros]].
  cbn in Hf, Hb.
  destruct (Hpv (skip_ws r1)) as [Hnf Hlen]; [lia|].
  destruct (pv (skip_ws r1)) as [v r2| |];
    [|split; [discriminate | now intros]|now elim Hnf].
  specialize (Hlen _ _ eq_refl).
  pose proof (skip_ws_length r2) as Hr2.
  destruct (skip_ws r2) as [|d r3]; [split; [discriminate | now intros]|].
  cbn in Hr2. pose proof (skip_ws_length r3) as Hr3.
  destruct (code d =? 44)%N.
  - destruct (IH (set_property key v acc) (skip_ws r3)) as [H1 H2]; [lia|lia|].
    split; [exact H1|]. intros m r' H. apply H2 in H. cbn. lia.
  - destruct (code d =? 125)%N; split; try discriminate; try now intros.
    intros m r' [= _ <-]. cbn. lia.
Qed.

Lemma json_value_fuel n : fuelled (json_value n) n.
Proof.
  induction n as [|f IH]; intros s Hs; [lia|].
  cbn [json_value].
  destruct s as [|c s1]; [split; [discriminate | now intros]|].
  cbn in Hs. pose proof (skip_ws_length s1) as Hw.
  destruct (code c =? 123)%N.
  { destruct (skip_ws s1) as [|c2 s3] eqn:E; [split; [discriminate | now intros]|].
    destruct (code c2 =? 125)%N.
    - split; [discriminate|]. intros v r [= _ <-]. cbn in *. lia.
    - destruct (json_members_fuel _ _ IH f [] (String c2 s3)) as [H1 H2];
        [lia|lia|].
      destruct (json_members _ f [] _) as [m r| |];
        [|split; [discriminate | now intros]|now elim H1].
      split; [discriminate|]. intros v r' [= _ <-].
      specialize (H2 _ _ eq_refl). cbn in *. lia. }
  destruct (code c =? 91)%N.
  { destruct (skip_ws s1) as [|c2 s3] eqn:E; [split; [discriminate | now intros]|].
    destruct (code c2 =? 93)%N.
    - split; [discriminate|]. intros v r [= _ <-]. cbn in *. lia.
    - destruct (json_elements_fuel _ _ IH f [] (String c2 s3)) as [H1 H2];
        [lia|lia|].
      destruct (json_elements _ f [] _) as [l r| |];
        [|split; [discriminate | now intros]|now elim H1].
      split; [discriminate|]. intros v r' [= _ <-].
      specialize (H2 _ _ eq_refl). cbn in *. lia. }
  destruct (code c =? 34)%N.
  { destruct (json_string s1 []) as [[w r]|] eqn:Es;
      [|split; [discriminate | now intros]].
    apply json_string_length in Es.
    split; [discriminate|]. intros v r' [= _ <-]. cbn. lia. }
  destruct (strip_prefix "true" (String c s1)) as [r|] eqn:Et.
  { apply strip_prefix_length in Et.
    split; [discriminate|]. intros v r' [= _ <-]. cbn in *. lia. }
  destruct (strip_prefix "false" (String c s1)) as [r|] eqn:Ef.
  { apply strip_prefix_length in Ef.
    split; [discriminate|]. intros v r' [= _ <-]. cbn in *. lia. }
  destruct (strip_prefix "null" (String c s1)) as [r|] eqn:En.
  { apply strip_prefix_length in En.
    split; [discriminate|]. intros v r' [= _ <-]. cbn in *. lia. }
  split.
  - unfold json_number.
    repeat match goal with
           | |- context [match ?x with _ => _ end] => destruct x
           end; discriminate.
  - intros v r. apply json_number_length.
Qed.

(** The fuel [JSON.parse] supplies is enough for every text: a [None]
    is always a syntax error. *)
Lemma JSON_parse_fuel text :
  json_value (S (length text)) (skip_ws text) <> PFuel.
Proof.
  apply json_value_fuel. pose proof (skip_ws_length text). lia.
Qed.

End Fuel.

(* ===================================================================== *)
(** * Further properties                                                 *)
(* ===================================================================== *)

Import SpecX.

(* ===================================================================== *)
(** ** Readings are finite and not negative                               *)
(* ===================================================================== *)

Section Readings.


Lemma labelled_reading hay label unit n :
  matchNumber hay (labelled label unit) = Some n -> reading n.
Proof.
  intros H. split; [exact (matchNumber_finite _ _ _ H)|].
  exact (matchNumber_labelled _ _ _ _ H).
Qed.


Lemma nullish_reading (a b : option number) x :
  (forall y, a = Some y -> reading y) -> (forall y, b = Some y -> reading y) ->
  nullish a b = Some x -> reading x.
Proof. destruct a; cbn; intros Ha Hb H; auto. Qed.

Ltac labelled_readings :=
  let y := fresh "y" in
  intros y;
  first [ apply nullish_reading; labelled_readings
        | let H := fresh "H" in
          intros H; exact (labelled_reading _ _ _ _ H) ].

(** X1.  Whatever the text, a non-null field of the GPU stats is a
    finite number that is not negative. *)
Theorem gpu_stats_readings (out : string) (x : number) :
  freq_mhz (parsePowermetricsGPU out) = Some x
  \/ active_pct (parsePowermetricsGPU out) = Some x
  \/ idle_pct (parsePowermetricsGPU out) = Some x
  \/ power_mw (parsePowermetricsGPU out) = Some x ->
  reading x.
Proof.
  cbn [parsePowermetricsGPU freq_mhz active_pct idle_pct power_mw].
  intros [H|[H|[H|H]]]; exact (labelled_reading _ _ _ _ H).
Qed.

Lemma gpu_stats_readings_sample : reading (round_ratio false 199 2).
Proof.
  apply (gpu_stats_readings gpu_sample). right; left. vm_compute. reflexivity.
Defined.

(** X2.  Whatever the text, a non-null temperature of the primary
    die-temperature parse is a finite number that is not negative. *)
Theorem smc_temps_readings (out : string) (x : number) :
  cpu (parsePowermetricsSMCTemps out) = Some x
  \/ gpu (parsePowermetricsSMCTemps out) = Some x
  \/ soc (parsePowermetricsSMCTemps out) = Some x ->
  reading x.
Proof.
  cbn [parsePowermetricsSMCTemps cpu gpu soc].
  intros [H|[H|H]]; revert x H; labelled_readings.
Qed.

Lemma smc_temps_readings_sample : reading (num 40).
Proof.
  apply (smc_temps_readings
           ("CPU die temperature: 55.5 C" ++ nl ++ "GPU die temperature: 40 C")).
  right; left. vm_compute. reflexivity.
Defined.


End Readings.

(* ===================================================================== *)
(** ** Patterns and letter case                                           *)
(* ===================================================================== *)

Section LetterCase.






















Lemma toLowerCase_idem s : toLowerCase (toLowerCase s) = toLowerCase s.
Proof.
  induction s as [|ch s IH]; cbn; [reflexivity|]. rewrite IH. f_equal.
  destruct ch as [[] [] [] [] [] [] [] []]; vm_compute; reflexivity.
Qed.



Lemma search_same_literal p1 p2 r
    (Hp : forall st, lit_match true p1 st = lit_match true p2 st) s :
  forall pv,
    search {| pattern := Cat (Lit p1) r; ignoreCase := true |} pv s
    = search {| pattern := Cat (Lit p2) r; ignoreCase := true |} pv s.
Proof.
  induction s as [|ch s IH]; intros pv;
    cbn [search pattern ignoreCase rmatch]; rewrite Hp;
    destruct (lit_match true p2 _) as [st'|]; try reflexivity;
    try (destruct (rmatch true r Some st'); [reflexivity | apply IH]).
  apply IH.
Qed.

(** X5.  Under the [i] flag the patterns for "SoC die temperature" and
    "SOC die temperature" find the same thing in every text, so the SoC
    temperature is the first of the SoC and the PMU die readings. *)
Theorem soc_second_spelling_adds_nothing (out : string) :
  matchNumber out re_SOC_die = matchNumber out re_soc_die
  /\ soc (parsePowermetricsSMCTemps out)
     = nullish (matchNumber out re_soc_die) (matchNumber out re_pmu_die).
Proof.
  assert (H : matchNumber out re_SOC_die = matchNumber out re_soc_die).
  { unfold matchNumber, String_match, re_SOC_die, re_soc_die, labelled.
    rewrite (search_same_literal "SOC die temperature:" "SoC die temperature:");
      [reflexivity|].
    intros st. reflexivity. }
  split; [exact H|].
  cbn [parsePowermetricsSMCTemps soc]. rewrite H.
  now destruct (matchNumber out re_soc_die).
Qed.

End LetterCase.

(* ===================================================================== *)
(** ** Memory pressure of joined texts                                    *)
(* ===================================================================== *)

Section JoinedTexts.

Lemma append_assoc (a b c : string) : (a ++ b) ++ c = a ++ b ++ c.
Proof. induction a as [|x a IH]; cbn; [reflexivity|]. now rewrite IH. Qed.

Lemma append_empty (a : string) : a ++ "" = a.
Proof. induction a as [|x a IH]; cbn; [reflexivity|]. now rewrite IH. Qed.

Lemma includes_inside pre a post m :
  includes (toLowerCase a) m = true ->
  includes (toLowerCase (pre ++ a ++ post)) m = true.
Proof.
  rewrite !includes_contains. intros (x & y & H).
  rewrite !toLowerCase_app, H.
  exists (toLowerCase pre ++ x), (y ++ toLowerCase post).
  now rewrite <- !append_assoc.
Qed.

Lemma orb_inside (a b a' b' : bool) :
  (a = true -> a' = true) -> (b = true -> b' = true) ->
  a || b = true -> a' || b' = true.
Proof.
  intros Ha Hb H. apply orb_true_iff in H. apply orb_true_iff.
  destruct H; [left|right]; auto.
Qed.

(** X6.  Text around a text never lowers its memory-pressure class in
    the order unknown, green, yellow, red: what the classifier finds in
    one stream of a command it also finds in the two streams joined, so
    the class of the memory probe is at least that of the standard
    output alone and at least that of the standard error alone. *)
Theorem pressure_of_joined_text (pre a post : string) (mp sw : process) :
  (severity (parseMemoryPressure a)
   <= severity (parseMemoryPressure (pre ++ a ++ post)))%nat
  /\ exists r,
       getMemory mp sw = Ok r
       /\ (severity (parseMemoryPressure (stdout (run mp)))
           <= severity (pressure (stats r)))%nat
       /\ (severity (parseMemoryPressure (stderr (run mp)))
           <= severity (pressure (stats r)))%nat.
Proof.
  assert (Hmono : forall pre a post,
             (severity (parseMemoryPressure a)
              <= severity (parseMemoryPressure (pre ++ a ++ post)))%nat).
  { clear. intros pre a post. unfold parseMemoryPressure.
    set (la := toLowerCase a). set (lb := toLowerCase (pre ++ a ++ post)).
    assert (Hi : forall m, includes la m = true -> includes lb m = true)
      by (intros m; apply includes_inside).
    assert (Hr : includes la "critical" || includes la "red" = true ->
                 includes lb "critical" || includes lb "red" = true)
      by (apply orb_inside; apply Hi).
    assert (Hy : includes la "warn" || includes la "warning"
                 || includes la "yellow" = true ->
                 includes lb "warn" || includes lb "warning"
                 || includes lb "yellow" = true)
      by (repeat apply orb_inside; apply Hi).
    assert (Hg : includes la "normal" || includes la "green"
                 || includes la "77%" = true ->
                 includes lb "normal" || includes lb "green"
                 || includes lb "77%" = true)
      by (repeat apply orb_inside; apply Hi).
    specialize (Hi "memory free percentage").
    destruct (includes la "critical" || includes la "red"),
      (includes lb "critical" || includes lb "red");
      try (specialize (Hr eq_refl); discriminate); cbn; try lia;
    destruct (includes la "warn" || includes la "warning" || includes la "yellow"),
      (includes lb "warn" || includes lb "warning" || includes lb "yellow");
      try (specialize (Hy eq_refl); discriminate); cbn; try lia;
    destruct (includes la "normal" || includes la "green" || includes la "77%"),
      (includes lb "normal" || includes lb "green" || includes lb "77%");
      try (specialize (Hg eq_refl); discriminate); cbn; try lia;
    destruct (includes la "memory free percentage"),
      (includes lb "memory free percentage");
      try (specialize (Hi eq_refl); discriminate); cbn; lia. }
  split; [apply Hmono|].
  destruct (getMemory_returns mp sw) as (v & _ & rw & ->).
  eexists; split; [reflexivity|]. cbn [stats pressure]. unfold combined.
  split.
  - pose proof (Hmono "" (stdout (run mp)) (stderr (run mp))) as H.
    exact H.
  - pose proof (Hmono (stdout (run mp)) (stderr (run mp)) "") as H.
    now rewrite append_empty in H.
Qed.

End JoinedTexts.

(* ===================================================================== *)
(** ** The swap figure                                                    *)
(* ===================================================================== *)

Section SwapFigure.

Local Open Scope Z_scope.

Lemma not_negative_le x : not_negative x = true -> le (num 0) x = true.
Proof. destruct x as [s|s| |s m e]; try discriminate; now destruct s. Qed.

(** The quotient of two positive finite Numbers is not negative. *)
Lemma div_positive m1 e1 m2 e2 :
  not_negative (div (S754_finite false m1 e1) (S754_finite false m2 e2)) = true.
Proof.
  unfold div. cbn [SFdiv xorb].
  destruct (SFdiv_core_binary prec emax (Zpos m1) e1 (Zpos m2) e2)
    as [[mz ez] lz] eqn:E.
  assert (Hmz : 0 <= mz).
  { unfold SFdiv_core_binary in E.
    set (e' := Z.min _ _) in E.
    set (m' := match e1 - e2 - e' with
               | Z0 => Zpos m1
               | Zpos _ => Z.shiftl (Zpos m1) (e1 - e2 - e')
               | Zneg _ => 0
               end) in E.
    assert (Hm' : 0 <= m').
    { subst m'. destruct (e1 - e2 - e') eqn:E'; try lia.
      apply Z.shiftl_nonneg. lia. }
    pose proof (Z.div_pos m' (Zpos m2) Hm' eq_refl) as Hq.
    unfold Z.div in Hq.
    destruct (Z.div_eucl m' (Zpos m2)) as [qt rm]. cbn [fst] in Hq.
    injection E as <- _ _. exact Hq. }
  pose proof (binary_round_aux_sign false mz ez lz) as Hs.
  pose proof (binary_round_aux_not_nan false mz ez lz Hmz) as Hn.
  destruct (binary_round_aux prec emax false mz ez lz); cbn; subst; auto.
Qed.

Lemma gigabytes_not_negative x u :
  isFinite x = true -> not_negative x = true ->
  not_negative (gigabytes x u) = true.
Proof.
  intros Hf Hn. unfold gigabytes.
  destruct (_ || _); [exact Hn|].
  destruct x as [s|s| |s m e]; try discriminate.
  - clear. now destruct s.
  - cbn in Hn. destruct s; [discriminate|]. clear.
    assert (E : exists m e, num 1024 = S754_finite false m e)
      by (vm_compute; eauto).
    destruct E as (m1 & e1 & ->). apply div_positive.
Qed.

(** X7.  The swap figure is never negative and never NaN: whatever the
    text, a non-null result of the swap parser is at least zero, and so
    is the [swap_gb] field of the memory probe. *)
Theorem swap_gb_not_negative (s : string) (mp sw : process) :
  (forall x, parseSwapUsage s = Ok (Some x) -> le (num 0) x = true)
  /\ exists r,
       getMemory mp sw = Ok r
       /\ forall x, swap_gb (stats r) = Some x -> le (num 0) x = true.
Proof.
  assert (H : forall s x, parseSwapUsage s = Ok (Some x) -> le (num 0) x = true).
  { clear. intros s x H.
    destruct (String_match s re_swap_used) as [m|] eqn:E.
    - destruct (parseSwapUsage_match _ _ E) as (w & u & _ & _ & Hw & _ & Hp).
      rewrite Hp in H. clear Hp.
      destruct (isFinite (Number (Some w))) eqn:Hf; [|discriminate].
      injection H as <-. apply not_negative_le.
      apply gigabytes_not_negative; [exact Hf|].
      destruct (Number_text _ Hw) as [Hs|Hn]; [exact Hs|].
      rewrite Hn in Hf. discriminate.
    - unfold parseSwapUsage in H. rewrite E in H. discriminate. }
  split; [apply H|].
  destruct (getMemory_returns mp sw) as (v & Hv & rw & Hr).
  rewrite Hr. eexists; split; [reflexivity|]. cbn [stats swap_gb].
  intros x ->. now apply (H _ _ Hv).
Qed.

End SwapFigure.

(* ===================================================================== *)
(** ** Captures are pieces of the text                                    *)
(* ===================================================================== *)

Section Captured.

Variable hay : string.

Lemma take_prefix n s : exists post, s = take n s ++ post.
Proof.
  unfold take. revert n. induction s as [|c s IH]; intros [|n]; cbn.
  - now exists "".
  - now exists "".
  - now exists (String c s).
  - destruct (IH n) as [post Hp]. exists post. now rewrite <- Hp.
Qed.

Lemma within_advance st ch s' :
  within hay st -> rest st = String ch s' -> within hay (advance st ch s').
Proof.
  intros [[pre Hp] Hc] Hr. split; [|exact Hc].
  exists (pre ++ String ch ""). cbn [rest advance].
  rewrite Hp, Hr, append_assoc. reflexivity.
Qed.

Lemma within_set_cap n st st' :
  within hay st -> within hay st' -> within hay (set_cap n st st').
Proof.
  intros [[pre Hp] _] [Hs Hc]. split; [exact Hs|].
  cbn [caps set_cap]. intros i w [[= _ <-]|Hin]; [|now apply (Hc i)].
  unfold consumed.
  destruct (take_prefix (length (rest st) - length (rest st')) (rest st))
    as [post Hpost].
  exists pre, post. now rewrite <- Hpost.
Qed.

Lemma lit_match_within ci p :
  forall st st', within hay st -> lit_match ci p st = Some st' -> within hay st'.
Proof.
  induction p as [|a p IH]; intros st st' Hw H; cbn [lit_match] in H.
  - now injection H as <-.
  - destruct (rest st) as [|ch s'] eqn:Er; [discriminate|].
    destruct (char_matches ci a ch); [|discriminate].
    eapply IH; [|exact H]. now apply within_advance.
Qed.

Lemma star_match_within ci c (k : continuation) cp :
  (forall st res, within hay st -> k st = Some res -> within hay res) ->
  forall s pv res,
    within hay {| prev := pv; rest := s; caps := cp |} ->
    star_match ci c k cp pv s = Some res -> within hay res.
Proof.
  intros Hk. induction s as [|ch s' IH]; intros pv res Hw H;
    cbn [star_match] in H.
  - now apply (Hk _ _ Hw).
  - destruct (class_matches ci c ch); [|now apply (Hk _ _ Hw)].
    destruct (star_match ci c k cp (Some ch) s') as [r|] eqn:E.
    + injection H as <-. apply (IH (Some ch)); [|exact E].
      exact (within_advance _ ch s' Hw eq_refl).
    + now apply (Hk _ _ Hw).
Qed.

Lemma rmatch_within ci r :
  forall (k : continuation) st res,
    (forall st' res', within hay st' -> k st' = Some res' -> within hay res') ->
    within hay st -> rmatch ci r k st = Some res -> within hay res.
Proof.
  induction r as [p|c|c|c|n r IH| |r1 IH1 r2 IH2]; intros k st res Hk Hw H;
    cbn [rmatch] in H.
  - destruct (lit_match ci p st) as [st'|] eqn:E; [|discriminate].
    eapply Hk; [|exact H]. eapply lit_match_within; eassumption.
  - destruct (rest st) as [|ch s'] eqn:Er; [discriminate|].
    destruct (class_matches ci c ch); [|discriminate].
    eapply Hk; [|exact H]. now apply within_advance.
  - eapply star_match_within; [exact Hk| |exact H]. now destruct st.
  - destruct (rest st) as [|ch s'] eqn:Er; [discriminate|].
    destruct (class_matches ci c ch); [|discriminate].
    eapply star_match_within; [exact Hk| |exact H].
    exact (within_advance _ ch s' Hw Er).
  - eapply (IH _ st); [|exact Hw|exact H].
    intros st' res' Hw' H'. eapply Hk; [|exact H'].
    now apply within_set_cap.
  - destruct (at_word_boundary st); [|discriminate]. now apply (Hk _ _ Hw).
  - eapply (IH1 _ st); [|exact Hw|exact H].
    intros st' res' Hw' H'. now apply (IH2 k st').
Qed.

Lemma cap_In (m : match_array) n w : cap m n = Some w -> In (n, w) m.
Proof.
  induction m as [|[i v] m IH]; cbn [cap]; [discriminate|].
  destruct (Nat.eqb i n) eqn:E.
  - apply Nat.eqb_eq in E. intros [= ->]. left. now subst.
  - intros H. right. now apply IH.
Qed.

Lemma search_within re :
  forall s pre pv m,
    hay = pre ++ s -> search re pv s = Some m ->
    forall n w, cap m n = Some w -> contains hay w.
Proof.
  assert (Hfound : forall s pre pv st,
             hay = pre ++ s ->
             rmatch (ignoreCase re) (pattern re) Some
               {| prev := pv; rest := s; caps := [] |} = Some st ->
             forall n w,
               cap ((0%nat, consumed {| prev := pv; rest := s; caps := [] |} st)
                      :: caps st) n = Some w ->
               contains hay w).
  { intros s pre pv st Hp E n w Hc.
    assert (Hw0 : within hay {| prev := pv; rest := s; caps := [] |}).
    { split; [now exists pre|]. intros ? ? []. }
    assert (Hw : within hay st).
    { eapply rmatch_within; [|exact Hw0|exact E].
      now intros st' res' Hw' [= <-]. }
    apply cap_In in Hc. destruct Hc as [[= _ <-]|Hin].
    - unfold consumed. cbn [rest].
      destruct (take_prefix (length s - length (rest st)) s) as [post Hpost].
      exists pre, post. now rewrite <- Hpost.
    - now apply (proj2 Hw n). }
  induction s as [|ch s IH]; intros pre pv m Hp H n w Hc; cbn [search] in H.
  - destruct (rmatch _ _ Some _) as [st|] eqn:E; [|discriminate].
    injection H as <-. eapply Hfound; eassumption.
  - destruct (rmatch _ _ Some _) as [st|] eqn:E.
    + injection H as <-. eapply Hfound; eassumption.
    + eapply (IH (pre ++ String ch "") (Some ch)); [|exact H|exact Hc].
      now rewrite append_assoc.
Qed.

End Captured.

Section ThermalLevels.

(** Every entry of a match array is a piece of the text searched. *)
Lemma String_match_contains hay re m n w :
  String_match hay re = Some m -> cap m n = Some w -> contains hay w.
Proof. intros H. now apply (search_within hay re hay "" None m). Qed.

Lemma parsePmsetTherm_pressure out :
  exists p,
    parsePmsetTherm out = Ok p
    /\ pmset_pressure p =
       let p0 := match pressure_match out with
                 | None => pressure_unknown
                 | Some a => match cap a 1 with
                             | Some w => level_of w
                             | None => pressure_unknown
                             end
                 end in
       if is_unknown p0
          && (includes out "No thermal warning level has been recorded"
              || includes out "Nominal")
       then nominal else p0.
Proof.
  unfold parsePmsetTherm, pressure_match.
  destruct (first_match _ _ _) as [a|] eqn:E.
  - destruct (first_match_capture _ _ E) as [w ->]. cbn [bind].
    eexists; split; reflexivity.
  - cbn [bind]. eexists; split; reflexivity.
Qed.

Lemma pressure_match_contains out a w :
  pressure_match out = Some a -> cap a 1 = Some w -> contains out w.
Proof.
  unfold pressure_match, first_match.
  destruct (String_match out re_pressure_assigned) as [m1|] eqn:E1.
  - intros [= <-]. now apply String_match_contains with (re := re_pressure_assigned).
  - destruct (String_match out re_pressure_colon) as [m2|] eqn:E2.
    + intros [= <-]. now apply String_match_contains with (re := re_pressure_colon).
    + intros E3. now apply String_match_contains with (re := re_pressure_level).
Qed.

Lemma contains_trans a b c : contains a b -> contains b c -> contains a c.
Proof.
  intros (p1 & q1 & ->) (p2 & q2 & ->).
  exists (p1 ++ p2), (q2 ++ q1). now rewrite !append_assoc.
Qed.

Lemma level_of_named w l :
  level_of w = l -> l <> pressure_unknown ->
  contains (toLowerCase w) (level_name l).
Proof.
  unfold level_of. cbv zeta.
  destruct (includes (toLowerCase w) "nominal") eqn:E1;
    [intros <- _; now apply includes_contains|].
  destruct (includes (toLowerCase w) "moderate") eqn:E2;
    [intros <- _; now apply includes_contains|].
  destruct (includes (toLowerCase w) "heavy") eqn:E3;
    [intros <- _; now apply includes_contains|].
  destruct (includes (toLowerCase w) "critical") eqn:E4;
    [intros <- _; now apply includes_contains|].
  intros <- H. now destruct H.
Qed.

(** X8.  The thermal pressure the service reports is backed by the text
    of the two commands it reads: a level moderate, heavy or critical is
    reported only when one of the three pressure phrasings matches and
    the level's word occurs in the text, in any letter case; nominal
    only when the word nominal occurs or the text says that no thermal
    warning level has been recorded; and unknown only for a text with
    neither the word [Nominal] nor that sentence. *)
Theorem thermal_pressure_is_in_the_text (pm smc m4 : process) :
  let text := combined (run pm) ++ nl ++ combined (run smc) in
  exists r,
    getThermals pm smc m4 = Ok r
    /\ match thermal_pressure (stats r) with
       | pressure_unknown =>
           ~ contains text "Nominal"
           /\ ~ contains text "No thermal warning level has been recorded"
       | nominal =>
           contains (toLowerCase text) "nominal"
           \/ contains text "No thermal warning level has been recorded"
       | l =>
           contains (toLowerCase text) (level_name l)
           /\ ~ no_pressure_phrase text
       end.
Proof.
  intros text.
  destruct (getThermals_returns pm smc m4) as (p & Hp & rw & ->).
  eexists; split; [reflexivity|]. cbn [stats thermal_pressure].
  fold text in Hp.
  destruct (parsePmsetTherm_pressure text) as (p' & Hp' & Hl).
  rewrite Hp in Hp'. injection Hp' as <-. rewrite Hl. clear Hl Hp p rw.
  cbv zeta.
  set (p0 := match pressure_match text with
             | None => pressure_unknown
             | Some a => match cap a 1 with
                         | Some w => level_of w
                         | None => pressure_unknown
                         end
             end).
  assert (Hp0 : p0 <> pressure_unknown ->
                contains (toLowerCase text) (level_name p0)
                /\ ~ no_pressure_phrase text).
  { subst p0. destruct (pressure_match text) as [a|] eqn:Ea; [|now intros []].
    destruct (cap a 1) as [w|] eqn:Ew; [|now intros []].
    intros Hne. split.
    - eapply contains_trans.
      + apply contains_toLowerCase. eapply pressure_match_contains; eassumption.
      + now apply level_of_named.
    - intros (H1 & H2 & H3). unfold pressure_match, unmatched in *.
      rewrite H1, H2, H3 in Ea. discriminate. }
  destruct p0 eqn:E; cbn [is_unknown andb];
    try (apply Hp0; discriminate).
  - left. apply Hp0. discriminate.
  - destruct (includes text "No thermal warning level has been recorded") eqn:E1;
      cbn [orb].
    + right. now apply includes_contains.
    + destruct (includes text "Nominal") eqn:E2.
      * left. apply includes_contains in E2.
        exact (contains_toLowerCase _ _ E2).
      * split; intros H; apply includes_contains in H; congruence.
Qed.

End ThermalLevels.

(* ===================================================================== *)
(** ** The three temperatures                                             *)
(* ===================================================================== *)

Section Temperatures.

Lemma sensor_fallback_cases text t :
  sensor_fallback text t = t
  \/ exists x, sensor_fallback text t = {| cpu := Some x; gpu := Some x; soc := Some x |}.
Proof.
  unfold sensor_fallback.
  destruct (JSON_parse text) as [data|]; [|now left].
  destruct (Object_values data) as [temps|]; [|now left].
  destruct (0 <? List.length temps)%nat; [|now left].
  destruct (ToNumbers temps) as [xs|]; [|now left].
  right. eauto.
Qed.

(** X9.  Whatever the sensor helper printed (any JSON value, numbers or
    not, or no JSON at all), the thermal probe reports either exactly
    the three temperatures parsed from the powermetrics text, or, when
    all three of those are null and the helper exited with status 0, one
    and the same non-null Number for all three.  So a temperature that
    powermetrics gave is never replaced, and the helper never fills in
    only some of them. *)
Theorem temperatures_all_or_nothing (pm smc m4 : process) :
  let t0 := parsePowermetricsSMCTemps (combined (run smc)) in
  exists r,
    getThermals pm smc m4 = Ok r
    /\ ((cpu_temp_c (stats r) = cpu t0 /\ gpu_temp_c (stats r) = gpu t0
         /\ soc_temp_c (stats r) = soc t0)
        \/ (cpu t0 = None /\ gpu t0 = None /\ soc t0 = None
            /\ ok (run m4) = true
            /\ exists x, cpu_temp_c (stats r) = Some x
                         /\ gpu_temp_c (stats r) = Some x
                         /\ soc_temp_c (stats r) = Some x)).
Proof.
  intros t0.
  destruct (getThermals_returns pm smc m4) as (p & _ & rw & ->).
  eexists; split; [reflexivity|].
  cbn [stats cpu_temp_c gpu_temp_c soc_temp_c]. fold t0.
  destruct (is_null (cpu t0) && is_null (gpu t0) && is_null (soc t0)
            && ok (run m4)) eqn:E; [|now left].
  apply andb_true_iff in E as [E Hok].
  apply andb_true_iff in E as [E Hs]. apply andb_true_iff in E as [Hc Hg].
  destruct (sensor_fallback_cases (combined (run m4)) t0) as [->|[x ->]];
    [now left|].
  right. cbn [cpu gpu soc].
  destruct (cpu t0); [discriminate|]. destruct (gpu t0); [discriminate|].
  destruct (soc t0); [discriminate|]. repeat split; eauto.
Qed.

End Temperatures.

(* ===================================================================== *)
(** ** The request handler                                                *)
(* ===================================================================== *)

Section Handler.

Import Server.

Lemma probes_return q :
  exists mem therm,
    getMemory (memory_pressure q) (swapusage q) = Ok mem
    /\ getThermals (pmset_therm q) (smc_thermal q) (m4temp q) = Ok therm.
Proof.
  destruct (metrics_returns q) as (mem & therm & Hm & Ht & _). eauto.
Qed.

Lemma fetch_cases req q d :
  exists r,
    fetch req q d = Ok r
    /\ ((exists data, r = Server.json data 200)
        \/ (exists s, r = Server.text s 200)
        \/ (exists s, r = Server.text s 404)
        \/ (d = true
            /\ r = {| status := 200;
                      headers := [("content-type", "text/html; charset=utf-8")];
                      body := File "./dashboard.html" |})).
Proof.
  unfold fetch.
  destruct (String.eqb (method req) "OPTIONS"); [eauto 8|].
  destruct (String.eqb (pathname req) "/health"); [eauto 8|].
  destruct (String.eqb (pathname req) "/metrics").
  { destruct (metrics_returns q) as (mem & therm & _ & _ & _ & ->).
    cbn [bind]. eauto 8. }
  destruct (String.eqb (pathname req) "/raw").
  { destruct (probes_return q) as (mem & therm & -> & ->). cbn [bind].
    eauto 8. }
  destruct (_ || _); [|eauto 8].
  destruct d; eauto 10.
Qed.


(** X11.  Every JSON or text answer, the two 404 answers included,
    allows any origin and forbids caching; the dashboard file is the one
    answer for which the handler sets neither header. *)
Theorem fetch_headers (req : Request) (q : request) (dashboard : bool) :
  exists r,
    fetch req q dashboard = Ok r
    /\ match body r with
       | File _ =>
           dashboard = true /\ status r = 200%Z
           /\ header "access-control-allow-origin" (headers r) = None
           /\ header "cache-control" (headers r) = None
       | _ =>
           header "access-control-allow-origin" (headers r) = Some "*"
           /\ header "cache-control" (headers r) = Some "no-store"
       end.
Proof.
  destruct (fetch_cases req q dashboard)
    as (r & -> & [[x ->]|[[s ->]|[[s ->]|[Hd ->]]]]);
    eexists; (split; [reflexivity|]); cbn; auto.
Qed.

(** X12.  Only [/metrics] and [/raw] look at the commands: a preflight,
    and a request for any other path, gets an answer that does not
    depend on what the six commands did. *)
Theorem fetch_without_probes (req : Request) (q q' : request) (dashboard : bool) :
  method req = "OPTIONS" \/ probes_path (pathname req) = false ->
  fetch req q dashboard = fetch req q' dashboard.
Proof.
  unfold fetch, probes_path. intros [->|H]; [reflexivity|].
  apply orb_false_iff in H as [-> ->]. reflexivity.
Qed.

Lemma fetch_without_probes_sample :
  fetch {| method := "POST"; pathname := "/health" |}
        (request_with_gpu gpu_sample) false
  = fetch {| method := "POST"; pathname := "/health" |}
          (request_with_gpu "") false.
Proof. apply fetch_without_probes. right. reflexivity. Defined.







End Handler.

(* ===================================================================== *)
(** ** The command line                                                   *)
(* ===================================================================== *)

Section CommandLine.

Import Cli.

Lemma SFcompare_flip x y :
  isFinite x = true -> isFinite y = true ->
  SFcompare y x = option_map CompOpp (SFcompare x y).
Proof.
  destruct x as [sx|sx| |sx mx ex], y as [sy|sy| |sy my ey];
    try discriminate; intros _ _; cbn [SFcompare option_map].
  - reflexivity.
  - now destruct sy.
  - now destruct sx.
  - pose proof (Pos.compare_cont_antisym mx my Eq) as H. cbn [CompOpp] in H.
    destruct sx, sy; cbn [CompOpp]; try reflexivity;
      rewrite (Z.compare_antisym ex ey);
      destruct (Z.compare ex ey); cbn [CompOpp]; try reflexivity;
      now rewrite H.
Qed.

Lemma lt_not_le x y :
  isFinite x = true -> isFinite y = true -> lt y x = negb (le x y).
Proof.
  intros Hx Hy. unfold lt, le, SFltb, SFleb.
  rewrite (SFcompare_flip x y Hx Hy).
  assert (Hc : SFcompare x y <> None)
    by (destruct x, y; try discriminate; cbn; discriminate).
  destruct (SFcompare x y) as [[]|]; [reflexivity..|now destruct Hc].
Qed.

Lemma accepted_port n :
  negb (isFinite n) || le n (num 0) || gt n (num 65535) = false ->
  port_in_range n.
Proof.
  intros H. apply orb_false_iff in H as [H H3].
  apply orb_false_iff in H as [H1 H2].
  apply negb_false_iff in H1. unfold port_in_range.
  split; [exact H1|]. split.
  - rewrite (lt_not_le n (num 0) H1 eq_refl), H2. reflexivity.
  - unfold gt in H3. fold (lt (num 65535) n) in H3.
    rewrite (lt_not_le n (num 65535) H1 eq_refl) in H3.
    now apply negb_false_iff in H3.
Qed.

(** What one round of the loop does with the arguments [a :: rest]:
    it ends the program, or goes on with fewer arguments and possibly a
    new port or host; in that case it does the same when further
    arguments follow. *)
Lemma parse_args_round a rest env :
  (is_help a = true /\ parse_args (a :: rest) env = Exit 0 None)
  \/ (is_help a = false
      /\ ((exists msg, parse_args (a :: rest) env = Exit 2 (Some msg))
          \/ exists rest' env',
               (rest' = rest \/ exists v, rest = v :: rest')
               /\ (PORT env' = PORT env
                   \/ exists n, PORT env' = Some (NumberText n)
                                /\ port_in_range n)
               /\ forall more,
                    parse_args (a :: rest ++ more) env
                    = parse_args (rest' ++ more) env')).
Proof.
  destruct (is_help a) eqn:Eh.
  { left. split; [reflexivity|]. cbn [parse_args]. now rewrite Eh. }
  right. split; [reflexivity|].
  destruct (is_port a) eqn:Ep.
  { assert (Hport : forall value rest',
               (rest' = rest \/ exists v, rest = v :: rest') ->
               (forall more, parse_args (a :: rest ++ more) env =
                  let n := Number (Some value) in
                  if negb (isFinite n) || le n (num 0) || gt n (num 65535)
                  then Exit 2 (Some ("Invalid port: " ++ value))
                  else parse_args (rest' ++ more)
                         {| PORT := Some (NumberText n); HOST := HOST env |}) ->
               (exists msg, parse_args (a :: rest) env = Exit 2 (Some msg))
               \/ exists rest'' env',
                    (rest'' = rest \/ exists v, rest = v :: rest'')
                    /\ (PORT env' = PORT env
                        \/ exists n, PORT env' = Some (NumberText n)
                                     /\ port_in_range n)
                    /\ forall more,
                         parse_args (a :: rest ++ more) env
                         = parse_args (rest'' ++ more) env').
    { intros value rest' Hr H. cbv zeta in H.
      destruct (negb (isFinite (Number (Some value)))
                || le (Number (Some value)) (num 0)
                || gt (Number (Some value)) (num 65535)) eqn:E.
      - left. eexists.
        specialize (H []). rewrite app_nil_r in H. exact H.
      - right.
        exists rest', {| PORT := Some (NumberText (Number (Some value)));
                         HOST := HOST env |}.
        split; [exact Hr|]. split.
        + right. eexists; split; [reflexivity|]. now apply accepted_port.
        + exact H. }
    destruct (indexOf a "=") as [eq|] eqn:Ei.
    - apply (Hport (slice (S eq) a) rest (or_introl eq_refl)).
      intros more. cbn [parse_args]. rewrite Eh, Ep. unfold takeArgValue.
      now rewrite Ei.
    - destruct rest as [|v rest'].
      + left. eexists.
        cbn [parse_args]. rewrite Eh, Ep. unfold takeArgValue.
        rewrite Ei. reflexivity.
      + destruct (is_empty v || startsWith v "-") eqn:Ev.
        * left. eexists.
          cbn [parse_args]. rewrite Eh, Ep. unfold takeArgValue.
          rewrite Ei, Ev. reflexivity.
        * apply (Hport v rest'); [right; eauto|].
          intros more. cbn [parse_args app]. rewrite Eh, Ep.
          unfold takeArgValue. now rewrite Ei, Ev. }
  destruct (is_host a) eqn:Ea.
  { destruct (indexOf a "=") as [eq|] eqn:Ei.
    - right.
      exists rest, {| PORT := PORT env; HOST := Some (slice (S eq) a) |}.
      split; [now left|]. split; [left; reflexivity|].
      intros more. cbn [parse_args]. rewrite Eh, Ep, Ea. unfold takeArgValue.
      rewrite Ei. reflexivity.
    - destruct rest as [|v rest'].
      + left. eexists.
        cbn [parse_args]. rewrite Eh, Ep, Ea. unfold takeArgValue.
        rewrite Ei. reflexivity.
      + destruct (is_empty v || startsWith v "-") eqn:Ev.
        * left. eexists.
          cbn [parse_args]. rewrite Eh, Ep, Ea. unfold takeArgValue.
          rewrite Ei, Ev. reflexivity.
        * right.
          exists rest', {| PORT := PORT env; HOST := Some v |}.
          split; [right; eauto|]. split; [left; reflexivity|].
          intros more. cbn [parse_args app]. rewrite Eh, Ep, Ea.
          unfold takeArgValue. now rewrite Ei, Ev. }
  left. eexists.
  cbn [parse_args]. rewrite Eh, Ep, Ea. reflexivity.
Qed.

Lemma shorter_first (P : list string -> Prop) :
  (forall argv,
      (forall argv', (List.length argv' < List.length argv)%nat -> P argv') ->
      P argv) ->
  forall argv, P argv.
Proof.
  intros H argv.
  assert (Hn : forall n argv, (List.length argv < n)%nat -> P argv).
  { induction n as [|n IH]; intros l Hl; [lia|].
    apply H. intros l' Hl'. apply IH. lia. }
  apply (Hn (S (List.length argv))). lia.
Qed.

Lemma round_shorter (rest rest' : list string) (a : string) :
  rest' = rest \/ (exists v, rest = v :: rest') ->
  (List.length rest' < List.length (a :: rest))%nat.
Proof. intros [->|[v ->]]; cbn [List.length]; lia. Qed.

Lemma parse_args_next a rest rest' env env' :
  (forall more, parse_args (a :: rest ++ more) env = parse_args (rest' ++ more) env') ->
  parse_args (a :: rest) env = parse_args rest' env'.
Proof. intros H. specialize (H []). now rewrite !app_nil_r in H. Qed.

(** X14.  A port taken from the command line is a finite Number above
    0 and at most 65535: when the arguments are accepted, the PORT
    variable is either left as it was or holds such a Number, which is
    then the port of the server. *)
Theorem accepted_ports (argv : list string) (env env' : environment) :
  parse_args argv env = Serve env' ->
  PORT env' = PORT env \/ port_in_range (server_port env').
Proof.
  revert env. pattern argv. apply shorter_first. clear argv.
  intros [|a rest] IH env H.
  - injection H as <-. now left.
  - destruct (parse_args_round a rest env)
      as [[_ E]|[_ [[msg E]|(rest' & env1 & Hr & Hp & E)]]];
      try (rewrite E in H; discriminate).
    rewrite (parse_args_next _ _ _ _ _ E) in H.
    destruct (IH rest' (round_shorter _ _ a Hr) env1 H) as [H1|H1];
      [|now right].
    destruct Hp as [Hp|(n & Hn & Hrange)].
    + left. congruence.
    + right. unfold server_port. now rewrite H1, Hn.
Qed.

Lemma accepted_ports_sample :
  PORT {| PORT := Some (NumberText (num 9000)); HOST := Some "0.0.0.0" |}
    = PORT {| PORT := None; HOST := None |}
  \/ port_in_range
       (server_port {| PORT := Some (NumberText (num 9000));
                       HOST := Some "0.0.0.0" |}).
Proof.
  apply (accepted_ports ["--port"; "9000"; "--host=0.0.0.0"]).
  vm_compute. reflexivity.
Defined.

(** X15.  Arguments are read from left to right and independently of
    what follows them: when a list of arguments is accepted, the same
    list followed by further arguments is read as the further arguments
    in the environment the first list left.  So of two ports or hosts
    the later one is kept. *)
Theorem parse_args_app (argv more : list string) (env env' : environment) :
  parse_args argv env = Serve env' ->
  parse_args (argv ++ more) env = parse_args more env'.
Proof.
  revert env. pattern argv. apply shorter_first. clear argv.
  intros [|a rest] IH env H.
  - injection H as <-. reflexivity.
  - destruct (parse_args_round a rest env)
      as [[_ E]|[_ [[msg E]|(rest' & env1 & Hr & _ & E)]]];
      try (rewrite E in H; discriminate).
    rewrite (parse_args_next _ _ _ _ _ E) in H.
    cbn [app]. rewrite E.
    exact (IH rest' (round_shorter _ _ a Hr) env1 H).
Qed.

Lemma parse_args_app_sample :
  parse_args (["--port"; "9000"] ++ ["-p"; "80"]) {| PORT := None; HOST := None |}
  = parse_args ["-p"; "80"]
      {| PORT := Some (NumberText (num 9000)); HOST := None |}.
Proof. apply parse_args_app. vm_compute. reflexivity. Defined.

(** X16.  The command line ends the program with status 0 or 2 only:
    with 0 and no error text only when one of the arguments is a help
    flag, with 2 and an error text otherwise. *)
Theorem exit_statuses (argv : list string) (env : environment)
    (code : Z) (error : option string) :
  parse_args argv env = Exit code error ->
  (code = 0%Z /\ error = None /\ Exists (fun a => is_help a = true) argv)
  \/ (code = 2%Z /\ exists msg, error = Some msg).
Proof.
  revert env. pattern argv. apply shorter_first. clear argv.
  intros [|a rest] IH env H; [discriminate|].
  destruct (parse_args_round a rest env)
    as [[Eh E]|[_ [[msg E]|(rest' & env1 & Hr & _ & E)]]].
  - rewrite E in H. injection H as <- <-. left. auto.
  - rewrite E in H. injection H as <- <-. right. eauto.
  - rewrite (parse_args_next _ _ _ _ _ E) in H.
    destruct (IH rest' (round_shorter _ _ a Hr) env1 H)
      as [(Hc & He & Hx)|Hc]; [left|now right].
    do 2 (split; [assumption|]). apply Exists_cons_tl.
    destruct Hr as [->|[v ->]]; [exact Hx|]. now apply Exists_cons_tl.
Qed.

Lemma exit_statuses_sample :
  (0%Z = 0%Z /\ @None string = None
   /\ Exists (fun a => is_help a = true) ["--host"; "a"; "--help"])
  \/ (0%Z = 2%Z /\ exists msg, @None string = Some msg).
Proof.
  apply (exit_statuses ["--host"; "a"; "--help"] {| PORT := None; HOST := None |}).
  vm_compute. reflexivity.
Defined.

(** X17.  The two ways of giving a host differ in what they accept.
    In the form [--host=value] any value is taken, the empty one and one
    that starts with a dash included.  In the forms [--host value] and
    [-h value] such a value ends the program with status 2, and any
    other value is taken.  The short flag has no [=] form. *)
Theorem host_forms (v : string) (rest : list string) (env : environment) :
  parse_args (("--host=" ++ v) :: rest) env
  = parse_args rest {| PORT := PORT env; HOST := Some v |}
  /\ (forall flag, flag = "--host" \/ flag = "-h" ->
      parse_args (flag :: v :: rest) env
      = if is_empty v || startsWith v "-"
        then Exit 2 (Some "Missing value for --host")
        else parse_args rest {| PORT := PORT env; HOST := Some v |})
  /\ parse_args (("-h=" ++ v) :: rest) env
     = Exit 2 (Some ("Unknown arg: -h=" ++ v ++ nl)).
Proof.
  assert (Hp : prefix "" v = true) by now destruct v.
  split; [|split].
  - cbn [parse_args append].
    unfold is_help, is_port, is_host, string_eqb, startsWith, takeArgValue.
    cbn. rewrite Hp. reflexivity.
  - intros flag [->| ->]; reflexivity.
  - cbn [parse_args append].
    unfold is_help, is_port, is_host, string_eqb, startsWith. cbn.
    reflexivity.
Qed.

End CommandLine.

(* ===================================================================== *)
(** ** The sensor helper                                                  *)
(* ===================================================================== *)

Section Helper.

Import M4Temp.

Lemma In_assign key value d k v :
  In (k, v) (assign key value d) -> (k, v) = (key, value) \/ In (k, v) d.
Proof.
  induction d as [|[k0 v0] d IH]; cbn [assign].
  - intros [H|[]]. now left.
  - destruct (String.eqb k0 key) eqn:E.
    + apply String.eqb_eq in E. subst k0.
      intros [H|H]; [now left | right; now right].
    + intros [H|H]; [right; now left|].
      destruct (IH H) as [H'|H']; [now left | right; now right].
Qed.

Lemma keys_assign key value d k :
  In k (map fst (assign key value d)) -> k = key \/ In k (map fst d).
Proof.
  induction d as [|[k0 v0] d IH]; cbn [assign map fst].
  - intros [H|[]]. now left.
  - destruct (String.eqb k0 key) eqn:E; cbn [map fst In].
    + intros H. now right.
    + intros [H|H]; [right; now left|].
      destruct (IH H) as [H'|H']; [now left | right; now right].
Qed.

Lemma NoDup_assign key value d :
  NoDup (map fst d) -> NoDup (map fst (assign key value d)).
Proof.
  induction d as [|[k0 v0] d IH]; cbn [assign map fst]; intros H.
  - constructor; [intros []|constructor].
  - destruct (String.eqb k0 key) eqn:E; cbn [map fst]; [exact H|].
    inversion H as [|? ? Hn Hd]; subst. constructor; [|now apply IH].
    intros Hin. destruct (keys_assign _ _ _ _ Hin) as [->|Hin']; [|now apply Hn].
    now rewrite String.eqb_refl in E.
Qed.

Lemma lookup_assign key value d k :
  lookup k (assign key value d) = if String.eqb key k then Some value else lookup k d.
Proof.
  induction d as [|[k0 v0] d IH]; cbn [assign lookup]; [reflexivity|].
  destruct (String.eqb k0 key) eqn:E; cbn [lookup].
  - apply String.eqb_eq in E. subst k0. now destruct (String.eqb key k).
  - destruct (String.eqb k0 k) eqn:E'; [|exact IH].
    apply String.eqb_eq in E'. subst k0. now rewrite String.eqb_sym, E.
Qed.

Lemma getTemps_snoc services s :
  getTemps (services ++ [s]) = record_service (getTemps services) s.
Proof. unfold getTemps. now rewrite fold_left_app. Qed.

(** X18.  What the helper collects: every entry is named after a
    product that contains [PMU tdie] or [PMU tcal], holds a temperature
    above zero (so never NaN), and is the reading of one of the services
    with that product; and no name occurs twice. *)
Theorem getTemps_entries (services : list service) :
  NoDup (map fst (getTemps services))
  /\ Forall (fun kv =>
               is_pmu (fst kv) = true
               /\ gt (snd kv) (num 0) = true
               /\ exists s, In s services
                            /\ product s = Some (fst kv)
                            /\ event s = Some (snd kv))
       (getTemps services).
Proof.
  induction services as [|s services IH] using rev_ind.
  - split; constructor.
  - destruct IH as [Hd Hf]. rewrite getTemps_snoc.
    assert (Hf' : Forall (fun kv =>
               is_pmu (fst kv) = true
               /\ gt (snd kv) (num 0) = true
               /\ exists s0, In s0 (services ++ [s])
                             /\ product s0 = Some (fst kv)
                             /\ event s0 = Some (snd kv))
              (getTemps services)).
    { eapply Forall_impl; [|exact Hf].
      intros kv (H1 & H2 & s0 & H3 & H4). do 2 (split; [assumption|]).
      exists s0. split; [apply in_or_app; now left | exact H4]. }
    unfold record_service.
    destruct (product s) as [p|] eqn:Ep; [|now split].
    destruct (is_pmu p) eqn:Ei; [|now split].
    destruct (event s) as [temp|] eqn:Ee; [|now split].
    destruct (gt temp (num 0)) eqn:Eg; [|now split].
    split; [now apply NoDup_assign|].
    apply Forall_forall. intros [k v] Hin.
    destruct (In_assign _ _ _ _ _ Hin) as [[= -> ->]|Hin'].
    + cbn [fst snd]. do 2 (split; [assumption|]).
      exists s. split; [apply in_or_app; right; now left | now split].
    + exact (proj1 (Forall_forall _ _) Hf' _ Hin').
Qed.

(** X19.  Of several services with the same product the last one with a
    reading above zero is the one reported: adding a service at the end
    changes the entry of its product, when it qualifies, and nothing
    else. *)
Theorem getTemps_last_wins (services : list service) (s : service) (k : string) :
  lookup k (getTemps (services ++ [s]))
  = match product s, event s with
    | Some p, Some temp =>
        if is_pmu p && gt temp (num 0) && String.eqb p k then Some temp
        else lookup k (getTemps services)
    | _, _ => lookup k (getTemps services)
    end.
Proof.
  rewrite getTemps_snoc. unfold record_service.
  destruct (product s) as [p|]; [|reflexivity].
  destruct (is_pmu p); cbn [andb]; [|now destruct (event s)].
  destruct (event s) as [temp|]; [|reflexivity].
  destruct (gt temp (num 0)); cbn [andb]; [|reflexivity].
  apply lookup_assign.
Qed.

End Helper.
